(** * Swap-in functions of the storage manager (src/store_swapin.cc)

    A shallow embedding of [storeSwapInStart], [storeSwapInFileClosed] and
    [storeSwapInFileNotify] over an explicit store: entries, store clients
    and I/O states live in finite maps indexed by their address, so that
    several clients can point at one entry.  A call either returns, stops
    at a failed [assert], or dereferences an address that holds no object.
    Calls that leave the file ([debug], [cbdataLock], [cbdataUnlock],
    [storeOpen], the client's callback) are written to a trace. *)

From stdpp Require Import base decidable option list gmap strings.
From Stdlib Require Import ZArith Lia.

Local Open Scope Z_scope.

(** ** Data model *)

(** Addresses.  [NULL] is the null pointer. *)
Abbreviation ptr := Z (only parsing).
Definition NULL : ptr := 0.

(** Modelled from the spec: the enumerations [mem_status_t] and
    [swap_status_t] are declared in a header that is not part of the
    sources; the spec gives mem_status in {NOT_IN_MEMORY, IN_MEMORY} and
    swap_status in {NONE, WRITING, DONE}. *)
Inductive mem_status_t := NOT_IN_MEMORY | IN_MEMORY.
Inductive swap_status_t := SWAPOUT_NONE | SWAPOUT_WRITING | SWAPOUT_DONE.

#[global] Instance mem_status_eq_dec : EqDecision mem_status_t.
Proof. solve_decision. Defined.
#[global] Instance swap_status_eq_dec : EqDecision swap_status_t.
Proof. solve_decision. Defined.

(** Modelled from the spec: the macro [EBIT_TEST] is defined in a header
    that is not part of the sources; the spec describes [flags] as a bitset,
    so the test masks the flag word with the bit numbered [bit]. *)
Definition EBIT_TEST (flag bit : Z) : Z := Z.land flag (Z.shiftl 1 bit).

(** The fields of [StoreEntry] that the swap-in functions touch.  The
    integer fields are kept as integers: their C types are declared outside
    the sources. *)
Record StoreEntry := mkStoreEntry {
  mem_obj : ptr;
  flags : Z;
  swap_filen : Z;
  swap_dirn : Z;
  mem_status : mem_status_t;
  swap_status : swap_status_t
}.

(** The fields of [store_client] that the swap-in functions touch.
    [callback] is a function pointer, [NULL] when no callback is pending. *)
Record store_client := mkStoreClient {
  entry : ptr;
  swapin_sio : ptr;
  callback : ptr;
  callback_data : ptr;
  copy_buf : ptr
}.

(** The locator carried by a [storeIOState]. *)
Record storeIOState := mkStoreIOState {
  sio_swap_filen : Z;
  sio_swap_dirn : Z
}.

(** The store: every object at its address, and the global counter
    [statCounter.swap.ins]. *)
Record world := mkWorld {
  entries : gmap Z StoreEntry;
  clients : gmap Z store_client;
  sios : gmap Z storeIOState;
  statCounter_swap_ins : Z
}.

(** The two static functions of the file, as they are handed to
    [storeOpen]. *)
Inductive swapin_fn := Fn_storeSwapInFileNotify | Fn_storeSwapInFileClosed.

(** Calls that leave the file.  A callback event keeps the store in which
    the callback started to run. *)
Inductive event :=
| EvDebug (section level : Z) (format : string)
| EvStoreOpen (e : ptr) (file_callback io_callback : swapin_fn)
              (callback_data : ptr) (sio : ptr)
| EvCbdataLock (p : ptr)
| EvCbdataUnlock (p : ptr)
| EvCallback (fn data buf : ptr) (errflag : Z) (running_in : world).

(** What lies outside the file: the bit number of [ENTRY_VALIDATED], the
    storage backend behind [storeOpen], and the code behind each client
    callback pointer.  Both functions are taken to return. *)
Record externals := mkExternals {
  ENTRY_VALIDATED : Z;
  storeOpen_backend : ptr → swapin_fn → swapin_fn → ptr → world → ptr * world;
  STCB_code : ptr → ptr → ptr → Z → world → world
}.

(** ** The monad of a call: store, trace, and how the call ended *)

Inductive outcome (A : Type) :=
| Returned (a : A)
| AssertionFailed (condition : string)
| InvalidPointer (p : ptr).
Arguments Returned {A} a.
Arguments AssertionFailed {A} condition.
Arguments InvalidPointer {A} p.

Record run (A : Type) := mkRun {
  r_trace : list event;
  r_world : world;
  r_out : outcome A
}.
Arguments mkRun {A} _ _ _.
Arguments r_trace {A} _.
Arguments r_world {A} _.
Arguments r_out {A} _.

Definition M (A : Type) : Type := world → run A.

Definition ret {A} (a : A) : M A := λ w, mkRun [] w (Returned a).

Definition bind {A B} (m : M A) (k : A → M B) : M B := λ w,
  let r := m w in
  match r_out r with
  | Returned a =>
      let r' := k a (r_world r) in
      mkRun (r_trace r ++ r_trace r') (r_world r') (r_out r')
  | AssertionFailed c => mkRun (r_trace r) (r_world r) (AssertionFailed c)
  | InvalidPointer p => mkRun (r_trace r) (r_world r) (InvalidPointer p)
  end.

#[global] Instance M_ret : MRet M := @ret.
#[global] Instance M_bind : MBind M := λ A B k m, bind m k.

Definition emit (ev : event) : M unit := λ w, mkRun [ev] w (Returned ()).

Definition assert (b : bool) (condition : string) : M unit := λ w,
  mkRun [] w (if b then Returned () else AssertionFailed condition).

Definition debug (section level : Z) (format : string) : M unit :=
  emit (EvDebug section level format).

(** Reading through a pointer. *)
Definition load_client (sc : ptr) : M store_client := λ w,
  mkRun [] w (match clients w !! sc with
              | Some c => Returned c
              | None => InvalidPointer sc
              end).

Definition load_entry (e : ptr) : M StoreEntry := λ w,
  mkRun [] w (match entries w !! e with
              | Some x => Returned x
              | None => InvalidPointer e
              end).

Definition load_sio (sio : ptr) : M storeIOState := λ w,
  mkRun [] w (match sios w !! sio with
              | Some s => Returned s
              | None => InvalidPointer sio
              end).

(** Writing one field through a pointer. *)
Definition with_clients (f : gmap Z store_client → gmap Z store_client)
    (w : world) : world :=
  mkWorld (entries w) (f (clients w)) (sios w) (statCounter_swap_ins w).

Definition with_entries (f : gmap Z StoreEntry → gmap Z StoreEntry)
    (w : world) : world :=
  mkWorld (f (entries w)) (clients w) (sios w) (statCounter_swap_ins w).

Definition store_client_field (sc : ptr) (f : store_client → store_client)
    : M unit := λ w,
  match clients w !! sc with
  | Some c => mkRun [] (with_clients <[sc := f c]> w) (Returned ())
  | None => mkRun [] w (InvalidPointer sc)
  end.

Definition store_entry_field (e : ptr) (f : StoreEntry → StoreEntry)
    : M unit := λ w,
  match entries w !! e with
  | Some x => mkRun [] (with_entries <[e := f x]> w) (Returned ())
  | None => mkRun [] w (InvalidPointer e)
  end.

Definition set_swapin_sio (v : ptr) (c : store_client) : store_client :=
  mkStoreClient (entry c) v (callback c) (callback_data c) (copy_buf c).

Definition set_callback (v : ptr) (c : store_client) : store_client :=
  mkStoreClient (entry c) (swapin_sio c) v (callback_data c) (copy_buf c).

Definition set_swap_filen (v : Z) (x : StoreEntry) : StoreEntry :=
  mkStoreEntry (mem_obj x) (flags x) v (swap_dirn x) (mem_status x)
               (swap_status x).

Definition set_swap_dirn (v : Z) (x : StoreEntry) : StoreEntry :=
  mkStoreEntry (mem_obj x) (flags x) (swap_filen x) v (mem_status x)
               (swap_status x).

(** [statCounter.swap.ins] is an [int], declared outside the sources: 32
    bits in two's complement.  [++] on it wraps around, from [INT_MAX] to
    [INT_MIN], as the compiled code does. *)
Definition INT_MAX : Z := 2147483647.
Definition INT_MIN : Z := -2147483648.

Definition int_wrap (z : Z) : Z := (z + 2 ^ 31) `mod` 2 ^ 32 - 2 ^ 31.

Definition int_incr (n : Z) : Z := int_wrap (n + 1).

(** [statCounter.swap.ins++] *)
Definition statCounter_swap_ins_incr : M unit := λ w,
  mkRun [] (mkWorld (entries w) (clients w) (sios w)
                    (int_incr (statCounter_swap_ins w))) (Returned ()).

(** Calls into the rest of the program. *)
Definition cbdataLock (p : ptr) : M unit := emit (EvCbdataLock p).
Definition cbdataUnlock (p : ptr) : M unit := emit (EvCbdataUnlock p).

Definition storeOpen (env : externals) (e : ptr)
    (file_callback io_callback : swapin_fn) (data : ptr) : M ptr := λ w,
  let '(sio, w') := storeOpen_backend env e file_callback io_callback data w in
  mkRun [EvStoreOpen e file_callback io_callback data sio] w' (Returned sio).

Definition call_STCB (env : externals) (fn data buf : ptr) (errflag : Z)
    : M unit := λ w,
  mkRun [EvCallback fn data buf errflag w]
        (STCB_code env fn data buf errflag w) (Returned ()).

(** ** The three functions of store_swapin.cc *)

Definition storeSwapInStart (env : externals) (sc : ptr) : M unit :=
  c ← load_client sc;
  let e := entry c in
  x ← load_entry e;
  assert (bool_decide (mem_status x = NOT_IN_MEMORY))
         "e->mem_status == NOT_IN_MEMORY";;
  if EBIT_TEST (flags x) (ENTRY_VALIDATED env) =? 0 then
    (* We're still reloading and haven't validated this entry yet *)
    mret ()
  else
    debug 20 3 "storeSwapInStart: called for %d %08X %s \n";;
    if bool_decide (swap_status x ≠ SWAPOUT_WRITING)
       && bool_decide (swap_status x ≠ SWAPOUT_DONE) then
      debug 20 1 "storeSwapInStart: bad swap_status (%s)\n";;
      mret ()
    else if swap_filen x <? 0 then
      debug 20 1 "storeSwapInStart: swap_filen < 0\n";;
      mret ()
    else
      assert (bool_decide (mem_obj x ≠ NULL)) "e->mem_obj != NULL";;
      debug 20 3 "storeSwapInStart: Opening fileno %08X\n";;
      sio ← storeOpen env e Fn_storeSwapInFileNotify
                      Fn_storeSwapInFileClosed sc;
      store_client_field sc (set_swapin_sio sio);;
      c' ← load_client sc;
      cbdataLock (swapin_sio c').

Definition storeSwapInFileClosed (env : externals) (data : ptr)
    (errflag : Z) (sio : ptr) : M unit :=
  let sc := data in
  debug 20 3 "storeSwapInFileClosed: sio=%p, errflag=%d\n";;
  cbdataUnlock sio;;
  store_client_field sc (set_swapin_sio NULL);;
  c ← load_client sc;
  let callback := callback c in
  (if bool_decide (callback ≠ NULL) then
     assert (errflag <=? 0) "errflag <= 0";;
     store_client_field sc (set_callback NULL);;
     c' ← load_client sc;
     call_STCB env callback (callback_data c') (copy_buf c') errflag
   else mret ());;
  statCounter_swap_ins_incr.

Definition storeSwapInFileNotify (data : ptr) (errflag : Z) (sio : ptr)
    : M unit :=
  let sc := data in
  c ← load_client sc;
  let e := entry c in
  x ← load_entry e;
  s ← load_sio sio;
  debug 1 3 "storeSwapInFileNotify: changing %d/%d to %d/%d\n";;
  s1 ← load_sio sio;
  store_entry_field e (set_swap_filen (sio_swap_filen s1));;
  s2 ← load_sio sio;
  store_entry_field e (set_swap_dirn (sio_swap_dirn s2)).

(** ** Reading a trace *)

Definition is_callback (ev : event) : bool :=
  match ev with EvCallback _ _ _ _ _ => true | _ => false end.

Definition is_storeOpen (ev : event) : bool :=
  match ev with EvStoreOpen _ _ _ _ _ => true | _ => false end.

(** The client callbacks delivered during a call, in order. *)
Definition callbacks (t : list event) : list event := List.filter is_callback t.

(** Whether [storeOpen] was called. *)
Definition opens (t : list event) : bool := existsb is_storeOpen t.

(** The swap locator of an entry, and what the spec calls an assigned one. *)
Definition swap_locator (x : StoreEntry) : Z * Z := (swap_dirn x, swap_filen x).
Definition sio_locator (s : storeIOState) : Z * Z :=
  (sio_swap_dirn s, sio_swap_filen s).


(** The four preconditions of [storeSwapInStart] that the spec lists. *)
Definition validated (env : externals) (x : StoreEntry) : Prop :=
  EBIT_TEST (flags x) (ENTRY_VALIDATED env) ≠ 0.
Definition swapped_out (x : StoreEntry) : Prop :=
  swap_status x = SWAPOUT_WRITING ∨ swap_status x = SWAPOUT_DONE.
Definition precondition_violated (env : externals) (x : StoreEntry) : Prop :=
  mem_status x ≠ NOT_IN_MEMORY ∨ ¬ validated env x ∨ ¬ swapped_out x
  ∨ swap_filen x < 0.

Definition fails_assertion {A} (r : run A) : Prop :=
  ∃ condition, r_out r = AssertionFailed condition.

(** How a call that checks [mem_status] first ends when it opens nothing. *)
Definition after_mem_status_check (x : StoreEntry) : outcome unit :=
  if bool_decide (mem_status x = NOT_IN_MEMORY) then Returned ()
  else AssertionFailed "e->mem_status == NOT_IN_MEMORY".

(** ** The stores a close passes through *)

(** The store once [sc->swapin_sio = NULL] has run. *)
Definition handle_cleared (sc : ptr) (c : store_client) (w : world) : world :=
  with_clients <[sc := set_swapin_sio NULL c]> w.

(** The store once [sc->callback = NULL] has run as well: the store the
    callback starts in. *)
Definition slot_emptied (sc : ptr) (c : store_client) (w : world) : world :=
  with_clients <[sc := set_callback NULL (set_swapin_sio NULL c)]>
               (handle_cleared sc c w).

(** The store once [statCounter.swap.ins++] has run. *)
Definition counted (w : world) : world :=
  mkWorld (entries w) (clients w) (sios w)
          (int_incr (statCounter_swap_ins w)).

(** What every close writes to the trace before it looks at the callback. *)
Definition closed_prefix (sio : ptr) : list event :=
  [EvDebug 20 3 "storeSwapInFileClosed: sio=%p, errflag=%d\n";
   EvCbdataUnlock sio].

(** The entry once [storeSwapInFileNotify] has copied the locator of [s]. *)
Definition relocated (s : storeIOState) (x : StoreEntry) : StoreEntry :=
  mkStoreEntry (mem_obj x) (flags x) (sio_swap_filen s) (sio_swap_dirn s)
               (mem_status x) (swap_status x).

(** A run that continues a trace already written. *)
Definition run_after {A} (t : list event) (r : run A) : run A :=
  mkRun (t ++ r_trace r) (r_world r) (r_out r).

(** ** Reading the locks and the log off a trace *)

(** Locks taken on [p] minus locks released on [p]. *)
Definition lock_balance (p : ptr) (t : list event) : Z :=
  foldr (λ ev n,
           match ev with
           | EvCbdataLock q => if bool_decide (q = p) then n + 1 else n
           | EvCbdataUnlock q => if bool_decide (q = p) then n - 1 else n
           | _ => n
           end) 0 t.

(** Whether a debug line of the given level was written. *)
Definition logged_at (level : Z) (t : list event) : bool :=
  existsb (λ ev, match ev with
                 | EvDebug _ l _ => l =? level
                 | _ => false
                 end) t.

(** ** A concrete store *)

Module Scenario.

(** A backend that puts the I/O state of entry [e] at address [e + 4096]
    and lets it carry the entry's own locator. *)
Definition open_at_offset (e : ptr) (_ _ : swapin_fn) (_ : ptr) (w : world)
    : ptr * world :=
  match entries w !! e with
  | Some x =>
      (e + 4096,
       mkWorld (entries w) (clients w)
               (<[e + 4096 := mkStoreIOState (swap_filen x) (swap_dirn x)]>
                  (sios w))
               (statCounter_swap_ins w))
  | None => (NULL, w)
  end.

(** Callbacks that only return. *)
Definition quiet_callback (_ _ _ : ptr) (_ : Z) (w : world) : world := w.

Definition env0 : externals := mkExternals 10 open_at_offset quiet_callback.

(** Entry 100: validated, swapped out at 0/5, not in memory.
    Entry 101: as entry 100 at 0/6, but not validated.
    Entry 102: validated and swapped out, but resident in memory.
    Entry 103: validated, not in memory, never swapped out.
    Entry 104: not validated and resident in memory. *)
Definition e100 := mkStoreEntry 500 1024 5 0 NOT_IN_MEMORY SWAPOUT_DONE.
Definition e101 := mkStoreEntry 501 0 6 0 NOT_IN_MEMORY SWAPOUT_DONE.
Definition e102 := mkStoreEntry 502 1024 7 0 IN_MEMORY SWAPOUT_DONE.
Definition e103 := mkStoreEntry 503 1024 (-1) 0 NOT_IN_MEMORY SWAPOUT_NONE.
Definition e104 := mkStoreEntry 504 0 8 0 IN_MEMORY SWAPOUT_DONE.

(** Clients 200 and 201 share entry 100; 200 waits for a callback, 201
    has none pending. *)
Definition c200 := mkStoreClient 100 300 900 901 902.
Definition c201 := mkStoreClient 100 301 NULL 911 912.
Definition c202 := mkStoreClient 101 NULL 920 921 922.
Definition c203 := mkStoreClient 102 NULL 930 931 932.
Definition c204 := mkStoreClient 103 NULL 940 941 942.
Definition c205 := mkStoreClient 104 NULL 950 951 952.

(** I/O state 300 resolved to 1/7, not to the 0/5 recorded in entry 100;
    I/O state 301 carries 0/5. *)
Definition s300 := mkStoreIOState 7 1.
Definition s301 := mkStoreIOState 5 0.

Definition w0 : world :=
  mkWorld
    (<[100 := e100]> (<[101 := e101]> (<[102 := e102]> (<[103 := e103]>
       (<[104 := e104]> ∅)))))
    (<[200 := c200]> (<[201 := c201]> (<[202 := c202]> (<[203 := c203]>
       (<[204 := c204]> (<[205 := c205]> ∅))))))
    (<[300 := s300]> (<[301 := s301]> ∅))
    41.

End Scenario.

(** ** The UTF-8 checks of src/auth/basic/Config.cc *)

(** A [char] is kept as the integer it promotes to: -128..127 where [char]
    is signed, 0..255 where it is not. *)
Definition is_char (c : Z) : Prop := -128 ≤ c < 256.

(** An [unsigned char]. *)
Definition is_uchar (b : Z) : Prop := 0 ≤ b < 256.

(** The same byte read through a [const unsigned char *]. *)
Definition to_uchar (c : Z) : Z := c `mod` 256.

Definition inlineUTF8SequenceLengthNonASCII (b0 : Z) : Z :=
  if negb (Z.land b0 0xC0 =? 0xC0) then 0
  else if Z.land b0 0xE0 =? 0xC0 then 2
  else if Z.land b0 0xF0 =? 0xE0 then 3
  else if Z.land b0 0xF8 =? 0xF0 then 4
  else 0.

Definition inlineUTF8SequenceLength (b0 : Z) : Z :=
  if Z.land b0 0x80 =? 0 then 1 else inlineUTF8SequenceLengthNonASCII b0.

(** [isLegalUTF8] reads the bytes at [source] through [srcptr], which starts
    at [source + length] and is decremented before each read.  [source] is
    the memory from that address on; a read past its end gives [None].
    The labels of the outer [switch] fall through from 4 down to 1. *)

(** [case 1], and the test after the [switch]. *)
Definition isLegalUTF8_case1 (source : list Z) : option bool :=
  s0 ← source !! 0%nat;
  if (s0 >=? 0x80) && (s0 <? 0xC2) then Some false
  else if s0 >? 0xF4 then Some false
  else Some true.

(** [case 2], with the inner [switch] on the first byte. *)
Definition isLegalUTF8_case2 (source : list Z) : option bool :=
  a ← source !! 1%nat;
  if a >? 0xBF then Some false
  else
    s0 ← source !! 0%nat;
    if s0 =? 0xE0 then
      if a <? 0xA0 then Some false else isLegalUTF8_case1 source
    else if s0 =? 0xED then
      if a >? 0x9F then Some false else isLegalUTF8_case1 source
    else if s0 =? 0xF0 then
      if a <? 0x90 then Some false else isLegalUTF8_case1 source
    else if s0 =? 0xF4 then
      if a >? 0x8F then Some false else isLegalUTF8_case1 source
    else
      if a <? 0x80 then Some false else isLegalUTF8_case1 source.

Definition isLegalUTF8_case3 (source : list Z) : option bool :=
  a ← source !! 2%nat;
  if (a <? 0x80) || (a >? 0xBF) then Some false
  else isLegalUTF8_case2 source.

Definition isLegalUTF8_case4 (source : list Z) : option bool :=
  a ← source !! 3%nat;
  if (a <? 0x80) || (a >? 0xBF) then Some false
  else isLegalUTF8_case3 source.

Definition isLegalUTF8 (source : list Z) (length : Z) : option bool :=
  if length =? 4 then isLegalUTF8_case4 source
  else if length =? 3 then isLegalUTF8_case3 source
  else if length =? 2 then isLegalUTF8_case2 source
  else if length =? 1 then isLegalUTF8_case1 source
  else Some false.

(** [isLegalUTF8String]: [s] holds the [char]s from [source] up to
    [sourceEnd], so [sourceEnd - source] is its length and the loop stops
    on the empty list.  [None] stands for a read outside [s] or for fuel
    that ran out. *)
Fixpoint isLegalUTF8String_loop (fuel : nat) (s : list Z) : option bool :=
  match s with
  | [] => Some true
  | c :: _ =>
      let len := inlineUTF8SequenceLength c in
      if len >? Z.of_nat (length s) then Some false
      else
        match isLegalUTF8 (to_uchar <$> s) len with
        | Some true =>
            match fuel with
            | O => None
            | S fuel' => isLegalUTF8String_loop fuel' (drop (Z.to_nat len) s)
            end
        | Some false => Some false
        | None => None
        end
  end.

Definition isLegalUTF8String (s : list Z) : option bool :=
  isLegalUTF8String_loop (length s) s.

(** *** What the checks are measured against *)

(** The length a first byte announces, by ranges. *)
Definition announced_length (b : Z) : Z :=
  if b <? 0x80 then 1
  else if b <? 0xC0 then 0
  else if b <? 0xE0 then 2
  else if b <? 0xF0 then 3
  else if b <? 0xF8 then 4
  else 0.

Definition continuation (b : Z) : bool := (0x80 <=? b) && (b <=? 0xBF).

(** The well-formed byte sequences of the Unicode Standard (table 3-7).
    With [lax] the second byte after 0xED and after 0xF4 has no lower
    bound. *)
Definition utf8_sequence (lax : bool) (l : list Z) : bool :=
  let low := if lax then 0 else 0x80 in
  match l with
  | [b0] => (0 <=? b0) && (b0 <=? 0x7F)
  | [b0; b1] => (0xC2 <=? b0) && (b0 <=? 0xDF) && continuation b1
  | [b0; b1; b2] =>
      ((b0 =? 0xE0) && (0xA0 <=? b1) && (b1 <=? 0xBF)
       || (0xE1 <=? b0) && (b0 <=? 0xEC) && continuation b1
       || (b0 =? 0xED) && (low <=? b1) && (b1 <=? 0x9F)
       || (0xEE <=? b0) && (b0 <=? 0xEF) && continuation b1)
      && continuation b2
  | [b0; b1; b2; b3] =>
      ((b0 =? 0xF0) && (0x90 <=? b1) && (b1 <=? 0xBF)
       || (0xF1 <=? b0) && (b0 <=? 0xF3) && continuation b1
       || (b0 =? 0xF4) && (low <=? b1) && (b1 <=? 0x8F))
      && continuation b2 && continuation b3
  | _ => false
  end.

(** A string of such sequences. *)
Inductive utf8_string (lax : bool) : list Z → Prop :=
| utf8_string_nil : utf8_string lax []
| utf8_string_app seq rest :
    utf8_sequence lax seq = true → utf8_string lax rest →
    utf8_string lax (seq ++ rest).

(** ** Credentials of src/auth/basic/Config.cc *)

(** A C string is kept as the list of its characters, without the
    terminating NUL. *)

(** What [xstrdup], [strlen] and the other string functions see of a
    buffer that ends in NUL: its characters up to the first NUL. *)
Fixpoint c_string (buffer : list Z) : list Z :=
  match buffer with
  | [] => []
  | c :: rest => if c =? 0 then [] else c :: c_string rest
  end.

(** The loop that advances [p] while the character under it passes
    [test], on a C string; the terminating NUL fails the tests of
    <ctype.h>. *)
Fixpoint skip_while (test : Z → bool) (p : list Z) : list Z :=
  match p with
  | [] => []
  | c :: rest => if test c then skip_while test rest else p
  end.

(** The characters of [p] before the first one that passes [test]. *)
Fixpoint span_until (test : Z → bool) (p : list Z) : list Z :=
  match p with
  | [] => []
  | c :: rest => if test c then [] else c :: span_until test rest
  end.

Definition is_newline (c : Z) : bool := c =? 10.
Definition is_cr_or_lf (c : Z) : bool := (c =? 13) || (c =? 10).

(** [strtok(eek, "\n")] with its result dropped: what is left in [eek].
    The leading newlines are skipped and stay; the first newline after the
    token, if there is one, is overwritten with NUL. *)
Definition strtok_newline (eek : list Z) : list Z :=
  let token := skip_while is_newline eek in
  take (length eek - length token) eek ++ span_until is_newline token.

(** [strcspn(cleartext, "\r\n") != strlen(cleartext)] *)
Definition has_cr_or_lf (cleartext : list Z) : bool :=
  negb (length (span_until is_cr_or_lf cleartext) =? length cleartext)%nat.

(** [strchr(s, ch)] as an offset into [s]; [None] is NULL. *)
Fixpoint strchr (s : list Z) (ch : Z) : option nat :=
  match s with
  | [] => None
  | c :: rest => if c =? ch then Some O else S <$> strchr rest ch
  end.

(** What [decodeCleartext] calls outside the file: the tests of
    <ctype.h> on an unsigned char, the base64 decoder (the decoded bytes
    when both [base64_decode_update] and [base64_decode_final] succeed),
    and [latin1_to_utf8], which fills a buffer from a C string. *)
Record decoding := mkDecoding {
  xisgraph : Z → bool;
  xisspace : Z → bool;
  base64_decode : list Z → option (list Z);
  latin1_to_utf8 : list Z → list Z
}.

(** [Auth::Basic::Config::decodeCleartext].  The outer [None] is a read
    outside the decoded bytes; the inner [None] is the NULL result. *)
Definition Config_decodeCleartext (ext : decoding) (httpAuthHeader : list Z)
    : option (option (list Z)) :=
  let proxy_auth := httpAuthHeader in
  (* trim BASIC from string *)
  let proxy_auth := skip_while (λ c, xisgraph ext (to_uchar c)) proxy_auth in
  (* Trim leading whitespace before decoding *)
  let proxy_auth := skip_while (λ c, xisspace ext (to_uchar c)) proxy_auth in
  (* Trim trailing \n before decoding *)
  let eek := strtok_newline proxy_auth in
  match base64_decode ext eek with
  | Some decoded =>
      legal ← isLegalUTF8String decoded;
      let cleartext :=
        if negb legal then c_string (latin1_to_utf8 ext (c_string decoded))
        else c_string decoded in
      (* Don't allow NL or CR in the credentials. *)
      if has_cr_or_lf cleartext then Some None else Some (Some cleartext)
  | None => Some None
  end.

(** What [decode] has filled in when it frees [cleartext]: the user name
    and password of the local [Auth::Basic::User] and the deny message of
    the request. *)
Record credentials := mkCredentials {
  cr_username : list Z;
  cr_passwd : option (list Z);
  cr_denyMessage : option string
}.

(** The part of [Auth::Basic::Config::decode] between the call of
    [decodeCleartext] and [xfree(cleartext)].  [Tolower] is outside the
    file, and so is the constructor of [Auth::Basic::User], which leaves
    [passwd] NULL. *)
Definition Config_decode_credentials (casesensitive : Z)
    (Tolower : list Z → list Z) (cleartext : list Z) : credentials :=
  let separator := strchr cleartext 58 in
  let passwd : option (list Z) := None in
  let '(cleartext, passwd) :=
    match separator with
    | Some at_colon =>
        (* terminate the username *)
        (take at_colon cleartext, Some (drop (S at_colon) cleartext))
    | None => (cleartext, passwd)
    end in
  let cleartext := if casesensitive =? 0 then Tolower cleartext
                   else cleartext in
  let username := cleartext in
  match passwd with
  | None =>
      mkCredentials username None
        (Some "no password was present in the HTTP [proxy-]authorization header. This is most likely a browser bug")
  | Some pw =>
      match pw with
      | [] =>
          mkCredentials username None
            (Some "Request denied because you provided an empty password. Users MUST have a password.")
      | _ :: _ => mkCredentials username (Some pw) None
      end
  end.

(** *** A concrete decoder *)

(** The characters of a string, as [char]s. *)
Fixpoint chars (s : string) : list Z :=
  match s with
  | EmptyString => []
  | String a rest => Z.of_N (Ascii.N_of_ascii a) :: chars rest
  end.

Module Credentials.

(** The tests of the "C" locale, a base64 decoder that knows the one text
    used below, and a [latin1_to_utf8] that copies. *)
Definition c_locale : decoding :=
  mkDecoding
    (λ b, (0x21 <=? b) && (b <=? 0x7E))
    (λ b, (b =? 0x20) || ((0x09 <=? b) && (b <=? 0x0D)))
    (λ s, if bool_decide (s = chars "dXNlcjpwYXNz")
          then Some (chars "user:pass") else None)
    (λ s, s).

End Credentials.

(** ** Life cycle of the Basic scheme in src/auth/basic/Config.cc *)

(** A [wordlist *] is kept as the list of its words; NULL is the empty
    list.  [ChildConfig] is kept for the one field this file reads. *)
Record ChildConfig := mkChildConfig { n_max : Z }.

Record helper := mkHelper {
  id_name : string;
  cmdline : list string;
  childs : ChildConfig;
  ipc_type : Z
}.

(** The members of [Auth::Basic::Config] that the file reads or writes. *)
Record Config := mkConfig {
  authenticateProgram : list string;
  authenticateChildren : ChildConfig;
  realm : string;
  credentialsTTL : Z;
  casesensitive : Z
}.

(** The two variables of the file, [authbasic_initialised] and
    [basicauthenticators], and the configuration object. *)
Record basic_scheme := mkBasicScheme {
  authbasic_initialised : Z;
  basicauthenticators : option helper;
  config : Config
}.

(** Calls into the helper subsystem, with the helper as it was passed. *)
Inductive helper_call :=
| CallHelperShutdown (h : helper)
| CallHelperOpenServers (h : helper).

(** What lies outside the file: [Auth::SchemeConfig::done] on the same
    object, the constructor of [helper], [ChildConfig::updateLimits], what
    [helperShutdown] and [helperOpenServers] do to the helper, and the
    constant [IPC_STREAM]. *)
Record helper_subsystem := mkHelperSubsystem {
  SchemeConfig_done : Config → Config;
  new_helper : string → helper;
  updateLimits : ChildConfig → ChildConfig → ChildConfig;
  helperShutdown : helper → helper;
  helperOpenServers : helper → helper;
  IPC_STREAM : Z
}.

Definition with_program (program : list string) (c : Config) : Config :=
  mkConfig program (authenticateChildren c) (realm c) (credentialsTTL c)
           (casesensitive c).

(** [Auth::Basic::Config::active] *)
Definition Config_active (s : basic_scheme) : bool :=
  authbasic_initialised s =? 1.

(** [Auth::Basic::Config::configured] *)
Definition Config_configured (s : basic_scheme) : bool :=
  if negb (bool_decide (authenticateProgram (config s) = []))
     && negb (n_max (authenticateChildren (config s)) =? 0)
     && negb (bool_decide (realm (config s) = EmptyString))
  then true
  else false.

(** [Auth::Basic::Config::rotateHelpers] *)
Definition Config_rotateHelpers (ext : helper_subsystem) (s : basic_scheme)
    : basic_scheme * list helper_call :=
  match basicauthenticators s with
  | Some h =>
      (* schedule closure of existing helpers *)
      (mkBasicScheme (authbasic_initialised s) (Some (helperShutdown ext h))
                     (config s),
       [CallHelperShutdown h])
  | None => (s, [])
  end.

(** [Auth::Basic::Config::done] *)
Definition Config_done (ext : helper_subsystem) (s : basic_scheme)
    : basic_scheme * list helper_call :=
  let c := SchemeConfig_done ext (config s) in
  let initialised := 0 in
  let calls := match basicauthenticators s with
               | Some h => [CallHelperShutdown h]
               | None => []
               end in
  (* delete basicauthenticators; basicauthenticators = NULL; *)
  let c := if negb (bool_decide (authenticateProgram c = []))
           then with_program [] c   (* wordlistDestroy *)
           else c in
  (mkBasicScheme initialised None c, calls).

(** [Auth::Basic::Config::init] *)
Definition Config_init (ext : helper_subsystem) (s : basic_scheme)
    : basic_scheme * list helper_call :=
  if negb (bool_decide (authenticateProgram (config s) = [])) then
    let h := match basicauthenticators s with
             | None => new_helper ext "basicauthenticator"
             | Some h => h
             end in
    let h := mkHelper (id_name h) (authenticateProgram (config s))
                      (updateLimits ext (childs h)
                                    (authenticateChildren (config s)))
                      (IPC_STREAM ext) in
    (mkBasicScheme 1 (Some (helperOpenServers ext h)) (config s),
     [CallHelperOpenServers h])
  else (s, []).

(** The calls of the life cycle, and a run of them. *)
Inductive lifecycle_call := DoInit | DoRotateHelpers | DoDone.

Definition lifecycle_step (ext : helper_subsystem) (s : basic_scheme)
    (call : lifecycle_call) : basic_scheme :=
  match call with
  | DoInit => (Config_init ext s).1
  | DoRotateHelpers => (Config_rotateHelpers ext s).1
  | DoDone => (Config_done ext s).1
  end.

Definition lifecycle_run (ext : helper_subsystem) (s : basic_scheme)
    (calls : list lifecycle_call) : basic_scheme :=
  foldl (lifecycle_step ext) s calls.

(** What holds between the calls: the flag is 0 or 1, and while it is 1
    there is a helper and a program. *)
Definition lifecycle_invariant (s : basic_scheme) : Prop :=
  (authbasic_initialised s = 0 ∨ authbasic_initialised s = 1)
  ∧ (authbasic_initialised s = 1 →
     is_Some (basicauthenticators s) ∧ authenticateProgram (config s) ≠ []).

(** The state the file starts in, for a given configuration. *)
Definition at_startup (c : Config) : basic_scheme := mkBasicScheme 0 None c.

(** ** Running the primitives *)

Lemma bind_returned {A B} (m : M A) (k : A → M B) w t w' a :
  m w = mkRun t w' (Returned a) → (m ≫= k) w = run_after t (k a w').
Proof. intros H. unfold mbind, M_bind, bind, run_after. by rewrite H. Qed.

Lemma bind_assertion {A B} (m : M A) (k : A → M B) w t w' c :
  m w = mkRun t w' (AssertionFailed c) →
  (m ≫= k) w = mkRun t w' (AssertionFailed c).
Proof. intros H. unfold mbind, M_bind, bind. by rewrite H. Qed.

Lemma bind_invalid {A B} (m : M A) (k : A → M B) w t w' p :
  m w = mkRun t w' (InvalidPointer p) →
  (m ≫= k) w = mkRun t w' (InvalidPointer p).
Proof. intros H. unfold mbind, M_bind, bind. by rewrite H. Qed.

Lemma run_after_mkRun {A} t t' w (o : outcome A) :
  run_after t (mkRun t' w o) = mkRun (t ++ t') w o.
Proof. reflexivity. Qed.

Lemma run_load_client w sc c :
  clients w !! sc = Some c → load_client sc w = mkRun [] w (Returned c).
Proof. intros H. unfold load_client. by rewrite H. Qed.

Lemma run_load_entry w e x :
  entries w !! e = Some x → load_entry e w = mkRun [] w (Returned x).
Proof. intros H. unfold load_entry. by rewrite H. Qed.

Lemma run_load_sio w sio s :
  sios w !! sio = Some s → load_sio sio w = mkRun [] w (Returned s).
Proof. intros H. unfold load_sio. by rewrite H. Qed.

Lemma run_store_client_field w sc c f :
  clients w !! sc = Some c →
  store_client_field sc f w
  = mkRun [] (with_clients <[sc := f c]> w) (Returned ()).
Proof. intros H. unfold store_client_field. by rewrite H. Qed.

Lemma run_store_entry_field w e x f :
  entries w !! e = Some x →
  store_entry_field e f w
  = mkRun [] (with_entries <[e := f x]> w) (Returned ()).
Proof. intros H. unfold store_entry_field. by rewrite H. Qed.

Lemma run_assert_holds w condition :
  assert true condition w = mkRun [] w (Returned ()).
Proof. reflexivity. Qed.

Lemma run_assert_fails w condition :
  assert false condition w = mkRun [] w (AssertionFailed condition).
Proof. reflexivity. Qed.

Lemma world_eq w1 w2 :
  entries w1 = entries w2 → clients w1 = clients w2 → sios w1 = sios w2 →
  statCounter_swap_ins w1 = statCounter_swap_ins w2 → w1 = w2.
Proof. destruct w1, w2; simpl; by intros -> -> -> ->. Qed.

(** One statement of the call that returns: run it and go on. *)
Ltac step_with tac := erewrite bind_returned; [| tac].
Ltac step_emit := step_with ltac:(reflexivity).
Ltac finish_run := rewrite ?run_after_mkRun; cbn [app].

(** ** storeSwapInFileClosed, path by path *)

Section Closed.
Context (env : externals).

Lemma closed_without_callback w sc c errflag sio :
  clients w !! sc = Some c → callback c = NULL →
  storeSwapInFileClosed env sc errflag sio w
  = mkRun (closed_prefix sio) (counted (handle_cleared sc c w)) (Returned ()).
Proof.
  intros Hc Hcb. unfold storeSwapInFileClosed.
  step_emit. step_emit.
  step_with ltac:(by apply run_store_client_field).
  step_with ltac:(apply run_load_client, lookup_insert_eq).
  cbn [callback set_swapin_sio]. rewrite Hcb.
  rewrite bool_decide_false by (intros H; by apply H).
  step_with ltac:(reflexivity).
  by finish_run.
Qed.

Lemma closed_assertion w sc c errflag sio :
  clients w !! sc = Some c → callback c ≠ NULL → 0 < errflag →
  storeSwapInFileClosed env sc errflag sio w
  = mkRun (closed_prefix sio) (handle_cleared sc c w)
          (AssertionFailed "errflag <= 0").
Proof.
  intros Hc Hcb Herr. unfold storeSwapInFileClosed.
  step_emit. step_emit.
  step_with ltac:(by apply run_store_client_field).
  step_with ltac:(apply run_load_client, lookup_insert_eq).
  cbn [callback set_swapin_sio].
  rewrite bool_decide_true by done.
  destruct (Z.leb_spec errflag 0) as [|_]; [lia|].
  erewrite bind_assertion;
    [| erewrite bind_assertion; [reflexivity | apply run_assert_fails]].
  by finish_run.
Qed.

Lemma closed_delivery w sc c errflag sio :
  clients w !! sc = Some c → callback c ≠ NULL → errflag ≤ 0 →
  storeSwapInFileClosed env sc errflag sio w
  = mkRun (closed_prefix sio
           ++ [EvCallback (callback c) (callback_data c) (copy_buf c)
                          errflag (slot_emptied sc c w)])
          (counted (STCB_code env (callback c) (callback_data c)
                              (copy_buf c) errflag (slot_emptied sc c w)))
          (Returned ()).
Proof.
  intros Hc Hcb Herr. unfold storeSwapInFileClosed.
  step_emit. step_emit.
  step_with ltac:(by apply run_store_client_field).
  step_with ltac:(apply run_load_client, lookup_insert_eq).
  cbn [callback set_swapin_sio].
  rewrite bool_decide_true by done.
  destruct (Z.leb_spec errflag 0) as [_|]; [|lia].
  step_with ltac:(
    step_with ltac:(apply run_assert_holds);
    step_with ltac:(apply run_store_client_field, lookup_insert_eq);
    step_with ltac:(apply run_load_client, lookup_insert_eq);
    finish_run; reflexivity).
  by finish_run.
Qed.

End Closed.

(** ** storeSwapInStart, path by path *)

Section Start.
Context (env : externals).

Ltac enter_start Hc Hx :=
  unfold storeSwapInStart;
  step_with ltac:(apply run_load_client; exact Hc);
  step_with ltac:(apply run_load_entry; exact Hx).

Ltac pass_mem_status Hm :=
  rewrite (bool_decide_true _ Hm);
  step_with ltac:(apply run_assert_holds).

Ltac pass_validated Hv :=
  match goal with
  | |- context [EBIT_TEST ?f ?b =? 0] =>
      destruct (Z.eqb_spec (EBIT_TEST f b) 0) as [He|_]; [by destruct Hv |]
  end;
  step_emit.

Ltac pass_swapped_out Hs :=
  match goal with
  | |- context [bool_decide (?a ≠ SWAPOUT_WRITING) && ?b] =>
      replace (bool_decide (a ≠ SWAPOUT_WRITING) && b) with false
        by (destruct Hs as [-> | ->]; done)
  end.

Lemma start_in_memory w sc c x :
  clients w !! sc = Some c → entries w !! entry c = Some x →
  mem_status x ≠ NOT_IN_MEMORY →
  storeSwapInStart env sc w
  = mkRun [] w (AssertionFailed "e->mem_status == NOT_IN_MEMORY").
Proof.
  intros Hc Hx Hm. enter_start Hc Hx.
  rewrite (bool_decide_false _ Hm).
  erewrite bind_assertion; [| apply run_assert_fails].
  by finish_run.
Qed.

Lemma start_not_validated w sc c x :
  clients w !! sc = Some c → entries w !! entry c = Some x →
  mem_status x = NOT_IN_MEMORY → ¬ validated env x →
  storeSwapInStart env sc w = mkRun [] w (Returned ()).
Proof.
  intros Hc Hx Hm Hv. enter_start Hc Hx. pass_mem_status Hm.
  destruct (Z.eqb_spec (EBIT_TEST (flags x) (ENTRY_VALIDATED env)) 0) as [|Hne];
    [| by destruct Hv].
  by finish_run.
Qed.

Lemma start_bad_swap_status w sc c x :
  clients w !! sc = Some c → entries w !! entry c = Some x →
  mem_status x = NOT_IN_MEMORY → validated env x → ¬ swapped_out x →
  storeSwapInStart env sc w
  = mkRun [EvDebug 20 3 "storeSwapInStart: called for %d %08X %s \n";
           EvDebug 20 1 "storeSwapInStart: bad swap_status (%s)\n"]
          w (Returned ()).
Proof.
  intros Hc Hx Hm Hv Hs. enter_start Hc Hx. pass_mem_status Hm.
  pass_validated Hv.
  unfold swapped_out in Hs.
  rewrite !bool_decide_true by tauto. cbn [andb].
  step_emit. by finish_run.
Qed.

Lemma start_no_locator w sc c x :
  clients w !! sc = Some c → entries w !! entry c = Some x →
  mem_status x = NOT_IN_MEMORY → validated env x → swapped_out x →
  swap_filen x < 0 →
  storeSwapInStart env sc w
  = mkRun [EvDebug 20 3 "storeSwapInStart: called for %d %08X %s \n";
           EvDebug 20 1 "storeSwapInStart: swap_filen < 0\n"]
          w (Returned ()).
Proof.
  intros Hc Hx Hm Hv Hs Hf. enter_start Hc Hx. pass_mem_status Hm.
  pass_validated Hv. pass_swapped_out Hs.
  destruct (Z.ltb_spec (swap_filen x) 0); [| lia].
  step_emit. by finish_run.
Qed.

Lemma start_no_mem_obj w sc c x :
  clients w !! sc = Some c → entries w !! entry c = Some x →
  mem_status x = NOT_IN_MEMORY → validated env x → swapped_out x →
  0 ≤ swap_filen x → mem_obj x = NULL →
  storeSwapInStart env sc w
  = mkRun [EvDebug 20 3 "storeSwapInStart: called for %d %08X %s \n"]
          w (AssertionFailed "e->mem_obj != NULL").
Proof.
  intros Hc Hx Hm Hv Hs Hf Ho. enter_start Hc Hx. pass_mem_status Hm.
  pass_validated Hv. pass_swapped_out Hs.
  destruct (Z.ltb_spec (swap_filen x) 0); [lia |].
  rewrite bool_decide_false by (intros H'; by apply H').
  erewrite bind_assertion; [| apply run_assert_fails].
  by finish_run.
Qed.

(** The only path that reaches [storeOpen]. *)
Lemma start_open w sc c x :
  clients w !! sc = Some c → entries w !! entry c = Some x →
  mem_status x = NOT_IN_MEMORY → validated env x → swapped_out x →
  0 ≤ swap_filen x → mem_obj x ≠ NULL →
  let opened := storeOpen_backend env (entry c) Fn_storeSwapInFileNotify
                                  Fn_storeSwapInFileClosed sc w in
  let r := storeSwapInStart env sc w in
  opens (r_trace r) = true ∧
  ∀ c', clients opened.2 !! sc = Some c' →
    r = mkRun [EvDebug 20 3 "storeSwapInStart: called for %d %08X %s \n";
               EvDebug 20 3 "storeSwapInStart: Opening fileno %08X\n";
               EvStoreOpen (entry c) Fn_storeSwapInFileNotify
                           Fn_storeSwapInFileClosed sc opened.1;
               EvCbdataLock opened.1]
              (with_clients <[sc := set_swapin_sio opened.1 c']> opened.2)
              (Returned ()).
Proof.
  intros Hc Hx Hm Hv Hs Hf Ho opened r. subst r opened.
  enter_start Hc Hx. pass_mem_status Hm.
  pass_validated Hv. pass_swapped_out Hs.
  destruct (Z.ltb_spec (swap_filen x) 0); [lia |].
  rewrite (bool_decide_true _ Ho).
  step_with ltac:(apply run_assert_holds).
  step_emit.
  destruct (storeOpen_backend env (entry c) Fn_storeSwapInFileNotify
              Fn_storeSwapInFileClosed sc w) as [sio w'] eqn:Hopen.
  step_with ltac:(unfold storeOpen; rewrite Hopen; reflexivity).
  cbn [fst snd].
  split.
  - destruct (clients w' !! sc) as [c'|] eqn:Hc'.
    + step_with ltac:(by apply run_store_client_field).
      step_with ltac:(apply run_load_client, lookup_insert_eq).
      by finish_run.
    + erewrite bind_invalid;
        [| unfold store_client_field; rewrite Hc'; reflexivity].
      by finish_run.
  - intros c' Hc'.
    step_with ltac:(by apply run_store_client_field).
    step_with ltac:(apply run_load_client, lookup_insert_eq).
    by finish_run.
Qed.


End Start.

Section StartSummary.
Context (env : externals).

(** Short of the three conditions tested after the first assertion, the
    call opens nothing, leaves the store alone, and ends as the
    [mem_status] assertion decides. *)
Lemma start_without_open w sc c x :
  clients w !! sc = Some c → entries w !! entry c = Some x →
  ¬ (validated env x ∧ swapped_out x ∧ 0 ≤ swap_filen x) →
  let r := storeSwapInStart env sc w in
  r_world r = w ∧ opens (r_trace r) = false
  ∧ r_out r = after_mem_status_check x.
Proof.
  intros Hc Hx Hn r. subst r. unfold after_mem_status_check.
  destruct (decide (mem_status x = NOT_IN_MEMORY)) as [Hm|Hm].
  - rewrite bool_decide_true by done.
    destruct (decide (EBIT_TEST (flags x) (ENTRY_VALIDATED env) = 0)) as [Hv|Hv].
    { rewrite (start_not_validated env w sc c x) by (unfold validated; tauto).
      done. }
    destruct (decide (swap_status x = SWAPOUT_WRITING
                      ∨ swap_status x = SWAPOUT_DONE)) as [Hs|Hs].
    + rewrite (start_no_locator env w sc c x); try done.
      unfold validated, swapped_out in Hn.
      destruct (Z.lt_ge_cases (swap_filen x) 0) as [Hlt|Hge]; [done|].
      destruct Hn. by split_and!.
    + by rewrite (start_bad_swap_status env w sc c x).
  - rewrite bool_decide_false by done.
    by rewrite (start_in_memory env w sc c x).
Qed.

(** A call that reached [storeOpen] passed every test before it. *)
Lemma start_opens_inv w sc c x :
  clients w !! sc = Some c → entries w !! entry c = Some x →
  opens (r_trace (storeSwapInStart env sc w)) = true →
  mem_status x = NOT_IN_MEMORY ∧ validated env x ∧ swapped_out x
  ∧ 0 ≤ swap_filen x ∧ mem_obj x ≠ NULL.
Proof.
  intros Hc Hx Ho.
  destruct (decide (validated env x ∧ swapped_out x ∧ 0 ≤ swap_filen x))
    as [(Hv & Hs & Hf)|Hn].
  - destruct (decide (mem_status x = NOT_IN_MEMORY)) as [Hm|Hm].
    + destruct (decide (mem_obj x = NULL)) as [Hobj|Hobj]; [|done].
      by rewrite (start_no_mem_obj env w sc c x) in Ho.
    + by rewrite (start_in_memory env w sc c x) in Ho.
  - destruct (start_without_open w sc c x Hc Hx Hn) as (_ & Hno & _).
    simpl in Hno. congruence.
Qed.

End StartSummary.

(** ** storeSwapInFileNotify *)

Lemma notify_run w sc c x sio s errflag :
  clients w !! sc = Some c → entries w !! entry c = Some x →
  sios w !! sio = Some s →
  storeSwapInFileNotify sc errflag sio w
  = mkRun [EvDebug 1 3 "storeSwapInFileNotify: changing %d/%d to %d/%d\n"]
          (with_entries <[entry c := relocated s x]> w) (Returned ()).
Proof.
  intros Hc Hx Hs. unfold storeSwapInFileNotify.
  step_with ltac:(by apply run_load_client).
  step_with ltac:(by apply run_load_entry).
  step_with ltac:(by apply run_load_sio).
  step_emit.
  step_with ltac:(by apply run_load_sio).
  step_with ltac:(by apply run_store_entry_field).
  step_with ltac:(by apply run_load_sio).
  rewrite (run_store_entry_field _ _ (set_swap_filen (sio_swap_filen s) x))
    by apply lookup_insert_eq.
  finish_run. f_equal. apply world_eq; cbn; try done.
  by rewrite insert_insert_eq.
Qed.

(** ** Who writes the entries *)





Lemma int_incr_below n :
  INT_MIN ≤ n < INT_MAX → int_incr n = n + 1.
Proof.
  unfold INT_MIN, INT_MAX, int_incr, int_wrap. intros Hn.
  change (2 ^ 31) with 2147483648. change (2 ^ 32) with 4294967296.
  rewrite Z.mod_small by lia. lia.
Qed.

Lemma int_incr_at_max : int_incr INT_MAX = INT_MIN.
Proof. reflexivity. Qed.

(** ** The claims *)


(** C2 (as amended): of the four preconditions of storeSwapInStart only
    mem_status == NOT_IN_MEMORY is checked by an assertion.  With the entry
    in memory the call stops at that assertion.  With the entry not in
    memory, an entry that is not validated, a swap_status outside
    {WRITING, DONE} or a swap_filen below zero each make the call return
    normally, having opened nothing and changed nothing. *)
Theorem storeSwapInStart_precondition_checks env w sc c x :
  clients w !! sc = Some c → entries w !! entry c = Some x →
  let r := storeSwapInStart env sc w in
  (mem_status x ≠ NOT_IN_MEMORY →
     r_out r = AssertionFailed "e->mem_status == NOT_IN_MEMORY"
     ∧ r_world r = w ∧ opens (r_trace r) = false)
  ∧ (mem_status x = NOT_IN_MEMORY →
     ¬ validated env x ∨ ¬ swapped_out x ∨ swap_filen x < 0 →
     r_out r = Returned () ∧ ¬ fails_assertion r
     ∧ r_world r = w ∧ opens (r_trace r) = false).
Proof.
  intros Hc Hx r. subst r. split.
  - intros Hm. by rewrite (start_in_memory env w sc c x).
  - intros Hm Hviol.
    assert (¬ (validated env x ∧ swapped_out x ∧ 0 ≤ swap_filen x)) as Hn.
    { intros (Hv & Hs & Hf). destruct Hviol as [?|[?|?]]; [done | done | lia]. }
    destruct (start_without_open env w sc c x Hc Hx Hn) as (Hw & Ho & Hout).
    simpl in Hw, Ho, Hout. unfold after_mem_status_check in Hout.
    rewrite bool_decide_true in Hout by done.
    split_and!; try done.
    intros [cond Hcond]. congruence.
Qed.

(** C3 (as amended): for a store client whose entry does not have
    ENTRY_VALIDATED set, storeSwapInStart never calls storeOpen and never
    assigns sc->swapin_sio: the store is left as it was and nothing is
    written to the trace.  The call returns at the validation test when
    the entry is not in memory; for an entry in memory it stops at the
    mem_status assertion on the line before, which opens nothing
    either. *)
Theorem storeSwapInStart_skips_unvalidated env w sc c x :
  clients w !! sc = Some c → entries w !! entry c = Some x →
  EBIT_TEST (flags x) (ENTRY_VALIDATED env) = 0 →
  let r := storeSwapInStart env sc w in
  opens (r_trace r) = false ∧ r_trace r = []
  ∧ r_world r = w ∧ clients (r_world r) !! sc = Some c
  ∧ r_out r = after_mem_status_check x
  ∧ (mem_status x = NOT_IN_MEMORY → r_out r = Returned ()).
Proof.
  intros Hc Hx Hv r. subst r. unfold after_mem_status_check.
  destruct (decide (mem_status x = NOT_IN_MEMORY)) as [Hm|Hm].
  - rewrite (start_not_validated env w sc c x) by (unfold validated; tauto).
    rewrite bool_decide_true by done. by cbn.
  - rewrite (start_in_memory env w sc c x) by done.
    rewrite bool_decide_false by done. by cbn.
Qed.

(** C4 (as amended): storeSwapInStart calls storeOpen, and stores a handle
    in sc->swapin_sio, only when the entry's swap_status is SWAPOUT_WRITING
    or SWAPOUT_DONE and its swap_filen is not negative.  Otherwise it opens
    nothing and leaves the store as it was: it returns when the entry is
    not in memory, and stops at the mem_status assertion on the first line
    when it is.  In particular an entry with swap_status NONE is never
    opened for swap-in. *)
Theorem storeSwapInStart_opens_only_swapped_out env w sc c x :
  clients w !! sc = Some c → entries w !! entry c = Some x →
  let r := storeSwapInStart env sc w in
  (opens (r_trace r) = true → swapped_out x ∧ 0 ≤ swap_filen x)
  ∧ (clients (r_world r) !! sc ≠ Some c → swapped_out x ∧ 0 ≤ swap_filen x)
  ∧ (¬ (swapped_out x ∧ 0 ≤ swap_filen x) →
     opens (r_trace r) = false ∧ r_world r = w
     ∧ r_out r = after_mem_status_check x
     ∧ (mem_status x = NOT_IN_MEMORY → r_out r = Returned ()))
  ∧ (swap_status x = SWAPOUT_NONE → opens (r_trace r) = false ∧ r_world r = w).
Proof.
  intros Hc Hx r. subst r.
  assert (¬ (swapped_out x ∧ 0 ≤ swap_filen x) →
          ¬ (validated env x ∧ swapped_out x ∧ 0 ≤ swap_filen x)) as Hweak
    by (intros Hn (_ & Hs & Hf); by apply Hn).
  split_and!.
  - intros Ho. by destruct (start_opens_inv env w sc c x Hc Hx Ho)
      as (_ & _ & Hs & Hf & _).
  - intros Hch.
    destruct (decide (swapped_out x ∧ 0 ≤ swap_filen x)) as [|Hn]; [done|].
    destruct (start_without_open env w sc c x Hc Hx (Hweak Hn)) as (Hw & _).
    simpl in Hw. rewrite Hw in Hch. done.
  - intros Hn.
    destruct (start_without_open env w sc c x Hc Hx (Hweak Hn))
      as (Hw & Ho & Hout). simpl in Hw, Ho, Hout.
    split_and!; try done.
    intros Hm. rewrite Hout. unfold after_mem_status_check.
    by rewrite bool_decide_true.
  - intros Hnone.
    assert (¬ (swapped_out x ∧ 0 ≤ swap_filen x)) as Hn.
    { intros [[Hs|Hs] _]; congruence. }
    destruct (start_without_open env w sc c x Hc Hx (Hweak Hn))
      as (Hw & Ho & _). done.
Qed.



(** C7: when storeSwapInFileClosed is invoked for a client whose callback
    field is NULL, whatever the error flag, no client callback is
    delivered: the call unlocks the handle, sets sc->swapin_sio to NULL,
    counts the swap-in and returns. *)
Theorem storeSwapInFileClosed_cancelled env w sc c errflag sio :
  clients w !! sc = Some c → callback c = NULL →
  let r := storeSwapInFileClosed env sc errflag sio w in
  r_out r = Returned ()
  ∧ callbacks (r_trace r) = []
  ∧ r_trace r = closed_prefix sio
  ∧ r_world r = counted (handle_cleared sc c w)
  ∧ clients (r_world r) !! sc
    = Some (mkStoreClient (entry c) NULL NULL (callback_data c) (copy_buf c)).
Proof.
  intros Hc Hcb r. subst r.
  rewrite (closed_without_callback env w sc c) by done. cbn.
  split_and!; try done.
  rewrite lookup_insert_eq. unfold set_swapin_sio. by rewrite Hcb.
Qed.

(** C8 (as amended): every invocation of storeSwapInFileClosed that gets
    past the assertion increments statCounter.swap.ins once, after the
    callback, if there is one, has returned: with no pending callback for
    every error flag, and with a pending callback for errflag <= 0.  The
    increment adds exactly one as long as the counter is below INT_MAX; at
    INT_MAX it wraps around to INT_MIN.  With a pending callback and a
    positive errflag the assertion stops the call before the increment and
    the counter keeps its value. *)
Theorem storeSwapInFileClosed_counts env w sc c errflag sio :
  clients w !! sc = Some c →
  let r := storeSwapInFileClosed env sc errflag sio w in
  let w_cb := STCB_code env (callback c) (callback_data c) (copy_buf c)
                        errflag (slot_emptied sc c w) in
  (callback c = NULL →
     r_out r = Returned ()
     ∧ statCounter_swap_ins (r_world r) = int_incr (statCounter_swap_ins w)
     ∧ (INT_MIN ≤ statCounter_swap_ins w < INT_MAX →
        statCounter_swap_ins (r_world r) = statCounter_swap_ins w + 1)
     ∧ (statCounter_swap_ins w = INT_MAX →
        statCounter_swap_ins (r_world r) = INT_MIN))
  ∧ (callback c ≠ NULL → errflag ≤ 0 →
     r_out r = Returned ()
     ∧ statCounter_swap_ins (slot_emptied sc c w) = statCounter_swap_ins w
     ∧ statCounter_swap_ins (r_world r)
       = int_incr (statCounter_swap_ins w_cb)
     ∧ (INT_MIN ≤ statCounter_swap_ins w_cb < INT_MAX →
        statCounter_swap_ins (r_world r) = statCounter_swap_ins w_cb + 1)
     ∧ (statCounter_swap_ins w_cb = INT_MAX →
        statCounter_swap_ins (r_world r) = INT_MIN))
  ∧ (callback c ≠ NULL → 0 < errflag →
     r_out r = AssertionFailed "errflag <= 0"
     ∧ statCounter_swap_ins (r_world r) = statCounter_swap_ins w).
Proof.
  intros Hc r w_cb. subst r w_cb. split_and!.
  - intros Hcb. rewrite (closed_without_callback env w sc c) by done. cbn.
    split_and!; [done | done | apply int_incr_below |].
    intros ->. apply int_incr_at_max.
  - intros Hcb Herr. rewrite (closed_delivery env w sc c) by done. cbn.
    split_and!; [done | done | done | apply int_incr_below |].
    intros ->. apply int_incr_at_max.
  - intros Hcb Herr. by rewrite (closed_assertion env w sc c).
Qed.

(** C9: storeSwapInFileNotify returns having changed nothing but the
    swap_filen and swap_dirn of the client's entry, which it copies from
    the handle.  It invokes no client callback; the entry's swap_status,
    mem_status, flags and mem_obj, every other entry, every store client
    (with its callback and swapin_sio), every handle and the swap-in
    counter are as they were. *)
Theorem storeSwapInFileNotify_frame w sc c x sio s errflag :
  clients w !! sc = Some c → entries w !! entry c = Some x →
  sios w !! sio = Some s →
  let r := storeSwapInFileNotify sc errflag sio w in
  let x' := relocated s x in
  r_out r = Returned ()
  ∧ callbacks (r_trace r) = [] ∧ opens (r_trace r) = false
  ∧ entries (r_world r) = <[entry c := x']> (entries w)
  ∧ (swap_filen x' = sio_swap_filen s ∧ swap_dirn x' = sio_swap_dirn s)
  ∧ (swap_status x' = swap_status x ∧ mem_status x' = mem_status x
     ∧ flags x' = flags x ∧ mem_obj x' = mem_obj x)
  ∧ (∀ e', e' ≠ entry c → entries (r_world r) !! e' = entries w !! e')
  ∧ clients (r_world r) = clients w
  ∧ sios (r_world r) = sios w
  ∧ statCounter_swap_ins (r_world r) = statCounter_swap_ins w.
Proof.
  intros Hc Hx Hs r x'. subst r x'.
  rewrite (notify_run w sc c x sio s errflag Hc Hx Hs). cbn.
  split_and!; try done.
  intros e' Hne. by rewrite lookup_insert_ne.
Qed.

(** C10: in a delivering invocation of storeSwapInFileClosed the callback
    is the last call the close makes and the only callback it delivers, and
    the store the callback starts in already has sc->callback set to NULL.
    A close that the callback triggers again for the same client from that
    store therefore finds no pending callback and delivers nothing. *)
Theorem storeSwapInFileClosed_slot_emptied_first env w sc c errflag sio :
  clients w !! sc = Some c → callback c ≠ NULL → errflag ≤ 0 →
  let r := storeSwapInFileClosed env sc errflag sio w in
  ∃ w1,
    r_trace r = closed_prefix sio
                ++ [EvCallback (callback c) (callback_data c) (copy_buf c)
                               errflag w1]
    ∧ length (callbacks (r_trace r)) = 1%nat
    ∧ callback <$> clients w1 !! sc = Some NULL
    ∧ r_world r = counted (STCB_code env (callback c) (callback_data c)
                                     (copy_buf c) errflag w1)
    ∧ ∀ errflag' sio',
        let r' := storeSwapInFileClosed env sc errflag' sio' w1 in
        callbacks (r_trace r') = [] ∧ r_out r' = Returned ().
Proof.
  intros Hc Hcb Herr r. subst r.
  exists (slot_emptied sc c w).
  rewrite (closed_delivery env w sc c) by done. cbn.
  split_and!; try done.
  - by rewrite lookup_insert_eq.
  - intros errflag' sio'.
    rewrite (closed_without_callback env (slot_emptied sc c w) sc
               (set_callback NULL (set_swapin_sio NULL c)));
      [done | apply lookup_insert_eq | done].
Qed.

(** ** The claims on the concrete store *)

Import Scenario.



(** Client 202 sits on entry 101, which is not validated: the call
    returns.  Client 203 sits on entry 102, which is in memory: the call
    stops at the assertion. *)
Lemma storeSwapInStart_precondition_checks_witness :
  clients w0 !! 202 = Some c202 ∧ entries w0 !! entry c202 = Some e101
  ∧ r_out (storeSwapInStart env0 202 w0) = Returned ()
  ∧ r_world (storeSwapInStart env0 202 w0) = w0
  ∧ clients w0 !! 203 = Some c203 ∧ entries w0 !! entry c203 = Some e102
  ∧ r_out (storeSwapInStart env0 203 w0)
    = AssertionFailed "e->mem_status == NOT_IN_MEMORY".
Proof.
  assert (¬ validated env0 e101) as Hnv by (intros Hv; by apply Hv).
  destruct (storeSwapInStart_precondition_checks env0 w0 202 c202 e101)
    as [_ Hret]; [reflexivity | reflexivity |].
  destruct (Hret eq_refl (or_introl Hnv)) as (Hout & _ & Hw & _).
  destruct (storeSwapInStart_precondition_checks env0 w0 203 c203 e102)
    as [Hfail _]; [reflexivity | reflexivity |].
  destruct Hfail as (Hout' & _); [discriminate |].
  split_and!; [reflexivity | reflexivity | exact Hout | exact Hw
              | reflexivity | reflexivity | exact Hout'].
Defined.

(** Three of the four violations return instead of failing an assertion:
    entry 101 is not validated, entry 103 has swap_status NONE and
    swap_filen -1. *)
Lemma storeSwapInStart_violation_returns :
  clients w0 !! 202 = Some c202 ∧ entries w0 !! entry c202 = Some e101
  ∧ precondition_violated env0 e101
  ∧ r_out (storeSwapInStart env0 202 w0) = Returned ()
  ∧ ¬ fails_assertion (storeSwapInStart env0 202 w0)
  ∧ clients w0 !! 204 = Some c204 ∧ entries w0 !! entry c204 = Some e103
  ∧ precondition_violated env0 e103
  ∧ ¬ fails_assertion (storeSwapInStart env0 204 w0).
Proof.
  split_and!; try reflexivity.
  - right; left. intros Hv. by apply Hv.
  - intros [cond Hcond]. vm_compute in Hcond. discriminate.
  - right; right; right. simpl. lia.
  - intros [cond Hcond]. vm_compute in Hcond. discriminate.
Qed.

(** Client 202 sits on entry 101, which is not validated and not in
    memory: the call returns with the store as it was.  Client 205 sits on
    entry 104, not validated and in memory: the call stops at the
    assertion, with the store as it was. *)
Lemma storeSwapInStart_skips_unvalidated_witness :
  clients w0 !! 202 = Some c202 ∧ entries w0 !! entry c202 = Some e101
  ∧ EBIT_TEST (flags e101) (ENTRY_VALIDATED env0) = 0
  ∧ opens (r_trace (storeSwapInStart env0 202 w0)) = false
  ∧ r_world (storeSwapInStart env0 202 w0) = w0
  ∧ clients (r_world (storeSwapInStart env0 202 w0)) !! 202 = Some c202
  ∧ r_out (storeSwapInStart env0 202 w0) = Returned ()
  ∧ clients w0 !! 205 = Some c205 ∧ entries w0 !! entry c205 = Some e104
  ∧ EBIT_TEST (flags e104) (ENTRY_VALIDATED env0) = 0
  ∧ opens (r_trace (storeSwapInStart env0 205 w0)) = false
  ∧ r_world (storeSwapInStart env0 205 w0) = w0.
Proof.
  destruct (storeSwapInStart_skips_unvalidated env0 w0 202 c202 e101)
    as (Ho & _ & Hw & Hc & _ & Hret); [reflexivity | reflexivity | reflexivity |].
  destruct (storeSwapInStart_skips_unvalidated env0 w0 205 c205 e104)
    as (Ho' & _ & Hw' & _); [reflexivity | reflexivity | reflexivity |].
  split_and!; [reflexivity | reflexivity | reflexivity
              | exact Ho | exact Hw | exact Hc | exact (Hret eq_refl)
              | reflexivity | reflexivity | reflexivity | exact Ho' | exact Hw'].
Defined.

(** Client 204 sits on entry 103, never swapped out: nothing is opened.
    Client 200 sits on entry 100, swapped out at 0/5: the call opens. *)
Lemma storeSwapInStart_opens_only_swapped_out_witness :
  clients w0 !! 204 = Some c204 ∧ entries w0 !! entry c204 = Some e103
  ∧ swap_status e103 = SWAPOUT_NONE
  ∧ opens (r_trace (storeSwapInStart env0 204 w0)) = false
  ∧ r_world (storeSwapInStart env0 204 w0) = w0
  ∧ clients w0 !! 200 = Some c200 ∧ entries w0 !! entry c200 = Some e100
  ∧ opens (r_trace (storeSwapInStart env0 200 w0)) = true
  ∧ swapped_out e100 ∧ 0 ≤ swap_filen e100.
Proof.
  destruct (storeSwapInStart_opens_only_swapped_out env0 w0 204 c204 e103)
    as (_ & _ & _ & Hnone); [reflexivity | reflexivity |].
  destruct (Hnone eq_refl) as [Ho Hw].
  destruct (storeSwapInStart_opens_only_swapped_out env0 w0 200 c200 e100)
    as (Hopen & _); [reflexivity | reflexivity |].
  destruct (Hopen eq_refl) as [Hs Hf].
  split_and!; [reflexivity | reflexivity | reflexivity | exact Ho | exact Hw
              | reflexivity | reflexivity | reflexivity | exact Hs | exact Hf].
Defined.

(** The claim as stated fails: client 205 sits on entry 104, not validated
    and in memory, and the call does not return: it stops at the
    assertion. *)
Lemma storeSwapInStart_unvalidated_in_memory_asserts :
  clients w0 !! 205 = Some c205 ∧ entries w0 !! entry c205 = Some e104
  ∧ EBIT_TEST (flags e104) (ENTRY_VALIDATED env0) = 0
  ∧ r_out (storeSwapInStart env0 205 w0)
    = AssertionFailed "e->mem_status == NOT_IN_MEMORY"
  ∧ r_out (storeSwapInStart env0 205 w0) ≠ Returned ().
Proof.
  split_and!; [reflexivity | reflexivity | reflexivity | |].
  - by rewrite (start_in_memory env0 w0 205 c205 e104).
  - by rewrite (start_in_memory env0 w0 205 c205 e104).
Qed.

(** The claim as stated fails: with entry 102 in memory and never swapped
    out, the call of client 203 does not return: it stops at the
    assertion. *)
Lemma storeSwapInStart_in_memory_never_swapped_asserts :
  clients
    (with_entries
       <[102 := mkStoreEntry 502 1024 (-1) 0 IN_MEMORY SWAPOUT_NONE]> w0)
    !! 203 = Some c203
  ∧ entries
      (with_entries
         <[102 := mkStoreEntry 502 1024 (-1) 0 IN_MEMORY SWAPOUT_NONE]> w0)
      !! entry c203
    = Some (mkStoreEntry 502 1024 (-1) 0 IN_MEMORY SWAPOUT_NONE)
  ∧ ¬ (swapped_out (mkStoreEntry 502 1024 (-1) 0 IN_MEMORY SWAPOUT_NONE)
       ∧ 0 ≤ swap_filen
               (mkStoreEntry 502 1024 (-1) 0 IN_MEMORY SWAPOUT_NONE))
  ∧ r_out
      (storeSwapInStart env0 203
         (with_entries
            <[102 := mkStoreEntry 502 1024 (-1) 0 IN_MEMORY SWAPOUT_NONE]>
            w0))
    = AssertionFailed "e->mem_status == NOT_IN_MEMORY"
  ∧ r_out
      (storeSwapInStart env0 203
         (with_entries
            <[102 := mkStoreEntry 502 1024 (-1) 0 IN_MEMORY SWAPOUT_NONE]>
            w0))
    ≠ Returned ().
Proof.
  split_and!; [reflexivity | reflexivity | | |].
  - intros [_ Hf]. simpl in Hf. lia.
  - by rewrite (start_in_memory env0 _ 203 c203
                  (mkStoreEntry 502 1024 (-1) 0 IN_MEMORY SWAPOUT_NONE)).
  - by rewrite (start_in_memory env0 _ 203 c203
                  (mkStoreEntry 502 1024 (-1) 0 IN_MEMORY SWAPOUT_NONE)).
Qed.




(** Client 201 has no callback pending; the close arrives with the error
    flag 1: nothing is delivered, the handle reference is cleared. *)
Lemma storeSwapInFileClosed_cancelled_witness :
  clients w0 !! 201 = Some c201 ∧ callback c201 = NULL
  ∧ r_out (storeSwapInFileClosed env0 201 1 301 w0) = Returned ()
  ∧ callbacks (r_trace (storeSwapInFileClosed env0 201 1 301 w0)) = []
  ∧ r_trace (storeSwapInFileClosed env0 201 1 301 w0) = closed_prefix 301
  ∧ clients (r_world (storeSwapInFileClosed env0 201 1 301 w0)) !! 201
    = Some (mkStoreClient 100 NULL NULL 911 912).
Proof.
  destruct (storeSwapInFileClosed_cancelled env0 w0 201 c201 1 301)
    as (Hout & Hnone & Htrace & _ & Hclient); [reflexivity | reflexivity |].
  split_and!; [reflexivity | reflexivity | exact Hout | exact Hnone
              | exact Htrace | exact Hclient].
Defined.

(** The counter stands at 41.  A close for client 201, which has no
    callback pending, leaves it at 42, and so does a close for client 200
    with the error flag 0. *)
Lemma storeSwapInFileClosed_counts_witness :
  clients w0 !! 201 = Some c201 ∧ clients w0 !! 200 = Some c200
  ∧ statCounter_swap_ins w0 = 41
  ∧ statCounter_swap_ins (r_world (storeSwapInFileClosed env0 201 1 301 w0))
    = 41 + 1
  ∧ statCounter_swap_ins (r_world (storeSwapInFileClosed env0 200 0 300 w0))
    = 41 + 1.
Proof.
  assert (INT_MIN ≤ 41 < INT_MAX) as Hrange by (unfold INT_MIN, INT_MAX; lia).
  destruct (storeSwapInFileClosed_counts env0 w0 201 c201 1 301)
    as (Hnone & _); [reflexivity |].
  destruct (Hnone eq_refl) as (_ & _ & Hcount & _).
  destruct (storeSwapInFileClosed_counts env0 w0 200 c200 0 300)
    as (_ & Hpending & _); [reflexivity |].
  destruct Hpending as (_ & _ & _ & Hcount' & _); [discriminate | lia |].
  split_and!; [reflexivity | reflexivity | reflexivity | exact (Hcount Hrange)
              | exact (Hcount' Hrange)].
Defined.

(** The claim as stated fails: a close for client 200 with the error flag
    1 stops at the assertion and the counter still stands at 41. *)
Lemma storeSwapInFileClosed_assertion_skips_count :
  clients w0 !! 200 = Some c200
  ∧ statCounter_swap_ins w0 = 41
  ∧ statCounter_swap_ins (r_world (storeSwapInFileClosed env0 200 1 300 w0))
    = 41
  ∧ statCounter_swap_ins (r_world (storeSwapInFileClosed env0 200 1 300 w0))
    ≠ statCounter_swap_ins w0 + 1.
Proof.
  split_and!; [reflexivity | reflexivity | reflexivity |].
  rewrite (closed_assertion env0 w0 200 c200 1 300);
    [| reflexivity | discriminate | lia].
  cbn. lia.
Qed.

(** Client 200 is notified with handle 300: entry 100 gets 1/7 and keeps
    the rest; clients, handles and counter are as they were. *)
Lemma storeSwapInFileNotify_frame_witness :
  clients w0 !! 200 = Some c200 ∧ entries w0 !! entry c200 = Some e100
  ∧ sios w0 !! 300 = Some s300
  ∧ r_out (storeSwapInFileNotify 200 0 300 w0) = Returned ()
  ∧ callbacks (r_trace (storeSwapInFileNotify 200 0 300 w0)) = []
  ∧ entries (r_world (storeSwapInFileNotify 200 0 300 w0))
    = <[100 := mkStoreEntry 500 1024 7 1 NOT_IN_MEMORY SWAPOUT_DONE]>
        (entries w0)
  ∧ clients (r_world (storeSwapInFileNotify 200 0 300 w0)) = clients w0
  ∧ sios (r_world (storeSwapInFileNotify 200 0 300 w0)) = sios w0
  ∧ statCounter_swap_ins (r_world (storeSwapInFileNotify 200 0 300 w0)) = 41.
Proof.
  destruct (storeSwapInFileNotify_frame w0 200 c200 e100 300 s300 0)
    as (Hout & Hnone & _ & Hent & _ & _ & _ & Hcl & Hsio & Hcount);
    [reflexivity | reflexivity | reflexivity |].
  split_and!; [reflexivity | reflexivity | reflexivity | exact Hout
              | exact Hnone | exact Hent | exact Hcl | exact Hsio
              | exact Hcount].
Defined.

(** Client 200 has callback 900 pending and the close arrives with the
    error flag 0: the one callback starts in a store where the slot is
    already empty, and closing again from there delivers nothing. *)
Lemma storeSwapInFileClosed_slot_emptied_first_witness :
  clients w0 !! 200 = Some c200 ∧ callback c200 ≠ NULL ∧ 0 ≤ 0
  ∧ ∃ w1,
      r_trace (storeSwapInFileClosed env0 200 0 300 w0)
      = closed_prefix 300 ++ [EvCallback 900 901 902 0 w1]
      ∧ callback <$> clients w1 !! 200 = Some NULL
      ∧ callbacks (r_trace (storeSwapInFileClosed env0 200 0 300 w1)) = [].
Proof.
  assert (callback c200 ≠ NULL) as Hcb by discriminate.
  destruct (storeSwapInFileClosed_slot_emptied_first env0 w0 200 c200 0 300)
    as (w1 & Htrace & _ & Hslot & _ & Hagain); [reflexivity | exact Hcb | lia |].
  split_and!; [reflexivity | exact Hcb | lia |].
  exists w1. split_and!; [exact Htrace | exact Hslot |].
  exact (proj1 (Hagain 0 300)).
Defined.

(** ** The UTF-8 checks *)

(** A boolean test that holds on every integer of a range holds on each. *)
Lemma forallb_seqZ (P : Z → bool) (lo n : Z) :
  forallb P (seqZ lo n) = true → ∀ b, lo ≤ b < lo + n → P b = true.
Proof.
  intros Hall b Hb. rewrite forallb_forall in Hall. apply Hall.
  apply list_elem_of_In, elem_of_seqZ. lia.
Qed.

Lemma to_uchar_range c : is_uchar (to_uchar c).
Proof. unfold is_uchar, to_uchar. apply Z.mod_pos_bound. lia. Qed.

Lemma to_uchar_id b : is_uchar b → to_uchar b = b.
Proof. unfold is_uchar, to_uchar. intros H. by apply Z.mod_small. Qed.

Lemma sequence_length_table c :
  is_char c → inlineUTF8SequenceLength c = announced_length (to_uchar c).
Proof.
  intros Hc.
  apply Z.eqb_eq.
  apply (forallb_seqZ
           (λ c, inlineUTF8SequenceLength c =? announced_length (to_uchar c))
           (-128) 384); [by vm_compute | unfold is_char in Hc; lia].
Qed.

Lemma isLegalUTF8_length1 source :
  isLegalUTF8 source 1 = isLegalUTF8_case1 source.
Proof. reflexivity. Qed.

Lemma isLegalUTF8_length2 source :
  isLegalUTF8 source 2 = isLegalUTF8_case2 source.
Proof. reflexivity. Qed.

Lemma isLegalUTF8_length3 source :
  isLegalUTF8 source 3 = isLegalUTF8_case3 source.
Proof. reflexivity. Qed.

Lemma isLegalUTF8_length4 source :
  isLegalUTF8 source 4 = isLegalUTF8_case4 source.
Proof. reflexivity. Qed.

Section Sequences.
Local Arguments Z.ltb : simpl never.
Local Arguments Z.leb : simpl never.
Local Arguments Z.eqb : simpl never.
Local Arguments Z.gtb : simpl never.
Local Arguments Z.geb : simpl never.

Ltac split_test :=
  match goal with
  | |- context [?a >? ?b] => rewrite (Z.gtb_ltb a b)
  | |- context [?a >=? ?b] => rewrite (Z.geb_leb a b)
  | |- context [?a <? ?b] => destruct (Z.ltb_spec a b)
  | |- context [?a <=? ?b] => destruct (Z.leb_spec a b)
  | |- context [?a =? ?b] => destruct (Z.eqb_spec a b)
  end.

Ltac decide_tests :=
  repeat (split_test; try (exfalso; lia); cbn [andb orb negb]);
  try reflexivity.

Ltac open_byte Hall Hb :=
  apply Forall_cons in Hall as [Hb Hall]; unfold is_uchar in Hb.

(** With the length the first byte announces, and that many bytes there,
    [isLegalUTF8] is the table with the two bounds missing. *)
Lemma announced_sequence b0 t :
  Forall is_uchar (b0 :: t) →
  announced_length b0 ≤ Z.of_nat (length (b0 :: t)) →
  isLegalUTF8 (b0 :: t) (announced_length b0)
  = Some (utf8_sequence true
            (take (Z.to_nat (announced_length b0)) (b0 :: t))).
Proof.
  intros Hall Hlen. open_byte Hall Hb0.
  unfold announced_length in *.
  destruct (Z.ltb_spec b0 0x80).
  { rewrite isLegalUTF8_length1. change (Z.to_nat 1) with 1%nat. unfold isLegalUTF8_case1. cbn.
    unfold continuation. decide_tests. }
  destruct (Z.ltb_spec b0 0xC0); [reflexivity|].
  destruct (Z.ltb_spec b0 0xE0).
  { destruct t as [|b1 t]; [cbn in Hlen; lia|]. open_byte Hall Hb1.
    rewrite isLegalUTF8_length2. change (Z.to_nat 2) with 2%nat.
    unfold isLegalUTF8_case2, isLegalUTF8_case1, continuation. cbn.
    unfold continuation. decide_tests. }
  destruct (Z.ltb_spec b0 0xF0).
  { destruct t as [|b1 [|b2 t]]; [cbn in Hlen; lia..|].
    open_byte Hall Hb1. open_byte Hall Hb2.
    rewrite isLegalUTF8_length3. change (Z.to_nat 3) with 3%nat.
    unfold isLegalUTF8_case3, isLegalUTF8_case2, isLegalUTF8_case1,
      continuation. cbn.
    unfold continuation. decide_tests. }
  destruct (Z.ltb_spec b0 0xF8); [|reflexivity].
  destruct t as [|b1 [|b2 [|b3 t]]]; [cbn in Hlen; lia..|].
  open_byte Hall Hb1. open_byte Hall Hb2. open_byte Hall Hb3.
  rewrite isLegalUTF8_length4. change (Z.to_nat 4) with 4%nat.
  unfold isLegalUTF8_case4, isLegalUTF8_case3, isLegalUTF8_case2,
    isLegalUTF8_case1, continuation. cbn.
  unfold continuation. decide_tests.
Qed.

End Sequences.

(** *** The loop of isLegalUTF8String *)

Lemma loop_unfold fuel s :
  isLegalUTF8String_loop fuel s
  = match s with
    | [] => Some true
    | c :: _ =>
        let len := inlineUTF8SequenceLength c in
        if len >? Z.of_nat (length s) then Some false
        else
          match isLegalUTF8 (to_uchar <$> s) len with
          | Some true =>
              match fuel with
              | O => None
              | S fuel' =>
                  isLegalUTF8String_loop fuel' (drop (Z.to_nat len) s)
              end
          | Some false => Some false
          | None => None
          end
    end.
Proof. by destruct fuel. Qed.

Lemma isLegalUTF8_true_length source len :
  isLegalUTF8 source len = Some true → 1 ≤ len ≤ 4.
Proof.
  unfold isLegalUTF8. intros H.
  destruct (Z.eqb_spec len 4); [lia|].
  destruct (Z.eqb_spec len 3); [lia|].
  destruct (Z.eqb_spec len 2); [lia|].
  destruct (Z.eqb_spec len 1); [lia|]. discriminate.
Qed.

(** [isLegalUTF8] reads the first [len] bytes and nothing else. *)
Lemma isLegalUTF8_reads_prefix source more len :
  len ≤ Z.of_nat (length source) →
  isLegalUTF8 (source ++ more) len = isLegalUTF8 source len.
Proof.
  intros Hlen. unfold isLegalUTF8.
  destruct (Z.eqb_spec len 4) as [->|_];
    [|destruct (Z.eqb_spec len 3) as [->|_];
      [|destruct (Z.eqb_spec len 2) as [->|_];
        [|destruct (Z.eqb_spec len 1) as [->|_]; [|done]]]];
    unfold isLegalUTF8_case4, isLegalUTF8_case3, isLegalUTF8_case2,
      isLegalUTF8_case1;
    rewrite ?(lookup_app_l source more) by (cbn in *; lia); done.
Qed.

Lemma isLegalUTF8_in_range source len :
  len ≤ Z.of_nat (length source) → is_Some (isLegalUTF8 source len).
Proof.
  intros Hlen. unfold isLegalUTF8.
  destruct (Z.eqb_spec len 4) as [->|_];
    [|destruct (Z.eqb_spec len 3) as [->|_];
      [|destruct (Z.eqb_spec len 2) as [->|_];
        [|destruct (Z.eqb_spec len 1) as [->|_]; [|done]]]].
  - destruct source as [|b0 [|b1 [|b2 [|b3 t]]]]; [cbn in Hlen; lia..|].
    unfold isLegalUTF8_case4, isLegalUTF8_case3, isLegalUTF8_case2,
      isLegalUTF8_case1; cbn [lookup list_lookup mbind option_bind].
    repeat case_match; done.
  - destruct source as [|b0 [|b1 [|b2 t]]]; [cbn in Hlen; lia..|].
    unfold isLegalUTF8_case3, isLegalUTF8_case2,
      isLegalUTF8_case1; cbn [lookup list_lookup mbind option_bind].
    repeat case_match; done.
  - destruct source as [|b0 [|b1 t]]; [cbn in Hlen; lia..|].
    unfold isLegalUTF8_case2,
      isLegalUTF8_case1; cbn [lookup list_lookup mbind option_bind].
    repeat case_match; done.
  - destruct source as [|b0 t]; [cbn in Hlen; lia..|].
    unfold isLegalUTF8_case1; cbn [lookup list_lookup mbind option_bind].
    repeat case_match; done.
Qed.

Lemma loop_total fuel : ∀ s,
  (length s ≤ fuel)%nat → is_Some (isLegalUTF8String_loop fuel s).
Proof.
  induction fuel as [|fuel IH]; intros s Hfuel; rewrite loop_unfold;
    (destruct s as [|c t]; [done|]); cbn zeta.
  { cbn in Hfuel. lia. }
  destruct (Z.gtb_spec (inlineUTF8SequenceLength c) (Z.of_nat (length (c :: t))))
    as [|Hlen]; [done|].
  destruct (isLegalUTF8_in_range (to_uchar <$> c :: t)
              (inlineUTF8SequenceLength c)) as [[|] Hb];
    [by rewrite length_fmap | rewrite Hb | by rewrite Hb].
  apply isLegalUTF8_true_length in Hb.
  apply IH. rewrite length_drop. cbn in Hfuel |- *. lia.
Qed.

(** More fuel than needed changes nothing. *)
Lemma loop_fuel fuel : ∀ s b more,
  isLegalUTF8String_loop fuel s = Some b →
  isLegalUTF8String_loop (fuel + more) s = Some b.
Proof.
  induction fuel as [|fuel IH]; intros s b more;
    rewrite !(loop_unfold _ s); (destruct s as [|c t]; [done|]); cbn zeta;
    destruct (inlineUTF8SequenceLength c >? Z.of_nat (length (c :: t)));
    try done;
    destruct (isLegalUTF8 (to_uchar <$> c :: t) (inlineUTF8SequenceLength c))
      as [[|]|]; try done.
  cbn [Nat.add]. apply IH.
Qed.

Lemma loop_enough fuel s :
  (length s ≤ fuel)%nat →
  isLegalUTF8String_loop fuel s = isLegalUTF8String s.
Proof.
  intros Hfuel. unfold isLegalUTF8String.
  destruct (loop_total (length s) s) as [b Hb]; [done|].
  rewrite Hb. replace fuel with (length s + (fuel - length s))%nat by lia.
  by apply loop_fuel.
Qed.

(** One turn of the loop, with the fuel out of the way. *)
Lemma isLegalUTF8String_cons c t :
  isLegalUTF8String (c :: t)
  = let len := inlineUTF8SequenceLength c in
    if len >? Z.of_nat (length (c :: t)) then Some false
    else
      match isLegalUTF8 (to_uchar <$> c :: t) len with
      | Some true => isLegalUTF8String (drop (Z.to_nat len) (c :: t))
      | other => other
      end.
Proof.
  unfold isLegalUTF8String at 1. rewrite loop_unfold. cbn zeta.
  destruct (inlineUTF8SequenceLength c >? Z.of_nat (length (c :: t)));
    [done|].
  destruct (isLegalUTF8 (to_uchar <$> c :: t) (inlineUTF8SequenceLength c))
    as [[|]|] eqn:Hb; try done.
  apply isLegalUTF8_true_length in Hb.
  cbn [length]. apply loop_enough. rewrite length_drop. cbn. lia.
Qed.

(** *** The strings that pass *)

Lemma Forall_to_uchar s : Forall is_uchar (to_uchar <$> s).
Proof. apply Forall_fmap, Forall_forall. intros c _. apply to_uchar_range. Qed.

Lemma utf8_sequence_bools lax seq :
  utf8_sequence lax seq = true →
  ∃ b0 t, seq = b0 :: t
          ∧ announced_length b0 = Z.of_nat (length seq)
          ∧ Forall (λ b, 0 ≤ b ≤ 0xF4 ∧ b ≠ 0xC0 ∧ b ≠ 0xC1) seq.
Proof.
  intros H.
  destruct seq as [|b0 [|b1 [|b2 [|b3 [|b4 t]]]]]; try discriminate;
    eexists _, _; (split; [reflexivity|]);
    unfold utf8_sequence, continuation in H;
    repeat rewrite ?andb_true_iff, ?orb_true_iff, ?Z.leb_le, ?Z.eqb_eq in H;
    (split; [unfold announced_length;
             repeat match goal with
                    | |- context [?a <? ?b] => destruct (Z.ltb_spec a b)
                    end; cbn [length]; destruct lax; lia
            | repeat first [apply Forall_nil_2 | apply Forall_cons_2];
              destruct lax; lia]).
Qed.

Lemma utf8_sequence_weaken seq :
  utf8_sequence false seq = true → utf8_sequence true seq = true.
Proof.
  destruct seq as [|b0 [|b1 [|b2 [|b3 [|b4 t]]]]]; try done;
    unfold utf8_sequence, continuation;
    repeat rewrite ?andb_true_iff, ?orb_true_iff, ?Z.leb_le, ?Z.eqb_eq; lia.
Qed.

Lemma utf8_string_weaken l : utf8_string false l → utf8_string true l.
Proof.
  induction 1 as [|seq rest Hseq _ IH]; [constructor|].
  constructor; [by apply utf8_sequence_weaken | done].
Qed.

Lemma accepted_then_string n : ∀ s,
  (length s ≤ n)%nat → Forall is_char s →
  isLegalUTF8String s = Some true → utf8_string true (to_uchar <$> s).
Proof.
  induction n as [|n IH]; intros s Hn Hchars;
    (destruct s as [|c t]; [intros _; constructor|]).
  { cbn in Hn. lia. }
  rewrite isLegalUTF8String_cons. cbn zeta.
  pose proof Hchars as Hc. apply Forall_cons in Hc as [Hc _].
  rewrite (sequence_length_table c Hc).
  destruct (Z.gtb_spec (announced_length (to_uchar c))
              (Z.of_nat (length (c :: t)))) as [|Hlen]; [done|].
  change (to_uchar <$> c :: t) with (to_uchar c :: (to_uchar <$> t)).
  rewrite announced_sequence;
    [| apply (Forall_to_uchar (c :: t)) | cbn [length] in *; by rewrite length_fmap].
  destruct (utf8_sequence true _) eqn:Hseq; [|done].
  intros Hrest.
  pose proof (isLegalUTF8_true_length (to_uchar <$> c :: t)
                (announced_length (to_uchar c))) as Hbound.
  change (to_uchar <$> c :: t) with (to_uchar c :: (to_uchar <$> t)) in Hbound.
  rewrite announced_sequence in Hbound;
    [| apply (Forall_to_uchar (c :: t)) | cbn [length] in *; by rewrite length_fmap].
  rewrite Hseq in Hbound. specialize (Hbound eq_refl).
  change (to_uchar c :: (to_uchar <$> t)) with (to_uchar <$> c :: t) in *.
  rewrite <- (take_drop (Z.to_nat (announced_length (to_uchar c)))
                (to_uchar <$> c :: t)).
  constructor; [done|].
  rewrite <- fmap_drop. apply IH; [| by apply Forall_drop | done].
  rewrite length_drop. cbn [length] in *. lia.
Qed.

Lemma string_then_accepted l :
  utf8_string true l →
  ∀ s, Forall is_char s → l = to_uchar <$> s →
       isLegalUTF8String s = Some true.
Proof.
  induction 1 as [|seq rest Hseq _ IH]; intros s Hchars Heq.
  { symmetry in Heq. apply fmap_nil_inv in Heq as ->. done. }
  symmetry in Heq. apply fmap_app_inv in Heq as (s1 & s2 & Hs1 & Hs2 & ->).
  destruct (utf8_sequence_bools _ _ Hseq) as (b0 & t' & Hshape & Hann & _).
  destruct s1 as [|c t1]; [by rewrite Hshape in Hs1|].
  rewrite Hs1 in Hshape. injection Hshape as <- <-.
  apply Forall_app in Hchars as [Hchars1 Hchars2].
  pose proof Hchars1 as Hc. apply Forall_cons in Hc as [Hc _].
  assert (announced_length (to_uchar c) = Z.of_nat (length (c :: t1)))
    as Hlen by (rewrite Hann, Hs1; by rewrite length_fmap).
  change ((c :: t1) ++ s2) with (c :: (t1 ++ s2)).
  rewrite isLegalUTF8String_cons. cbn zeta.
  rewrite (sequence_length_table c Hc), Hlen.
  destruct (Z.gtb_spec (Z.of_nat (length (c :: t1)))
              (Z.of_nat (length (c :: t1 ++ s2)))) as [Hgt|_].
  { cbn [length] in Hgt. rewrite length_app in Hgt. lia. }
  change (c :: t1 ++ s2) with ((c :: t1) ++ s2).
  rewrite fmap_app, isLegalUTF8_reads_prefix by (rewrite length_fmap; lia).
  assert (isLegalUTF8 (to_uchar <$> c :: t1) (Z.of_nat (length (c :: t1)))
          = Some true) as ->.
  { rewrite <- Hlen.
    change (to_uchar <$> c :: t1) with (to_uchar c :: (to_uchar <$> t1)).
    rewrite announced_sequence;
      [| apply (Forall_to_uchar (c :: t1))
       | rewrite Hlen; cbn [length]; rewrite length_fmap; lia].
    rewrite Hlen, Nat2Z.id.
    change (to_uchar c :: (to_uchar <$> t1)) with (to_uchar <$> c :: t1).
    rewrite firstn_all2 by (rewrite length_fmap; lia).
    by rewrite <- Hs1, Hseq. }
  rewrite Nat2Z.id, drop_app_length. by apply IH.
Qed.

Lemma legal_prefix n : ∀ s1 s2,
  (length s1 ≤ n)%nat →
  isLegalUTF8String s1 = Some true →
  isLegalUTF8String (s1 ++ s2) = isLegalUTF8String s2.
Proof.
  induction n as [|n IH]; intros s1 s2 Hn;
    (destruct s1 as [|c t1]; [done|]).
  { cbn in Hn. lia. }
  change ((c :: t1) ++ s2) with (c :: (t1 ++ s2)).
  rewrite !isLegalUTF8String_cons. cbn zeta.
  destruct (Z.gtb_spec (inlineUTF8SequenceLength c)
              (Z.of_nat (length (c :: t1)))) as [|Hlen]; [done|].
  destruct (Z.gtb_spec (inlineUTF8SequenceLength c)
              (Z.of_nat (length (c :: t1 ++ s2)))) as [Hgt|_].
  { cbn [length] in Hgt, Hlen. rewrite length_app in Hgt. lia. }
  change (c :: t1 ++ s2) with ((c :: t1) ++ s2).
  rewrite fmap_app, isLegalUTF8_reads_prefix by (by rewrite length_fmap).
  destruct (isLegalUTF8 (to_uchar <$> c :: t1) (inlineUTF8SequenceLength c))
    as [[|]|] eqn:Hb; try done.
  apply isLegalUTF8_true_length in Hb.
  intros Hrest.
  rewrite drop_app_le by lia.
  apply IH; [| done]. rewrite length_drop. cbn [length] in *. lia.
Qed.

(** *** Properties of the UTF-8 checks *)

(** X1: for every value a char can take, signed or not, the length that
    inlineUTF8SequenceLength reads off the bit masks is the one given by
    the ranges of the byte: 1 below 0x80, 2 for 0xC0..0xDF, 3 for
    0xE0..0xEF, 4 for 0xF0..0xF7, and 0 for 0x80..0xBF and 0xF8..0xFF. *)
Theorem inlineUTF8SequenceLength_by_ranges c :
  is_char c →
  let b := to_uchar c in
  inlineUTF8SequenceLength c
  = (if b <? 0x80 then 1
     else if b <? 0xC0 then 0
     else if b <? 0xE0 then 2
     else if b <? 0xF0 then 3
     else if b <? 0xF8 then 4
     else 0)
  ∧ (0x80 ≤ b → inlineUTF8SequenceLengthNonASCII c
                = inlineUTF8SequenceLength c)
  ∧ (b < 0x80 → inlineUTF8SequenceLengthNonASCII c = 0).
Proof.
  intros Hc b. subst b. unfold is_char in Hc.
  pose proof (forallb_seqZ
    (λ c, (inlineUTF8SequenceLength c =? announced_length (to_uchar c))
          && (if 0x80 <=? to_uchar c
              then inlineUTF8SequenceLengthNonASCII c
                   =? inlineUTF8SequenceLength c
              else inlineUTF8SequenceLengthNonASCII c =? 0))
    (-128) 384 ltac:(by vm_compute) c ltac:(lia)) as H.
  cbv beta in H. apply andb_true_iff in H as [H1 H2].
  apply Z.eqb_eq in H1. split; [exact H1|].
  destruct (Z.leb_spec 0x80 (to_uchar c)); apply Z.eqb_eq in H2;
    split; intros; first [done | lia].
Qed.

(** X2: the lengths do not depend on whether char is signed: a byte of
    0x80 and above gives the same length when it is read as the negative
    value of a signed char. *)
Theorem inlineUTF8SequenceLength_signedness b :
  0x80 ≤ b < 0x100 →
  inlineUTF8SequenceLength (b - 0x100) = inlineUTF8SequenceLength b
  ∧ inlineUTF8SequenceLengthNonASCII (b - 0x100)
    = inlineUTF8SequenceLengthNonASCII b.
Proof.
  intros Hb.
  pose proof (forallb_seqZ
    (λ b, (inlineUTF8SequenceLength (b - 0x100) =? inlineUTF8SequenceLength b)
          && (inlineUTF8SequenceLengthNonASCII (b - 0x100)
              =? inlineUTF8SequenceLengthNonASCII b))
    0x80 0x80 ltac:(by vm_compute) b ltac:(lia)) as H.
  cbv beta in H. apply andb_true_iff in H as [H1 H2].
  by apply Z.eqb_eq in H1, H2.
Qed.

(** X3: isLegalUTF8 reads nothing past the length it is given.  A length
    other than 1, 2, 3 or 4 is rejected without a read, even with no byte
    at source; with length bytes at source the call reads inside them, and
    the bytes that follow do not change its answer. *)
Theorem isLegalUTF8_stays_in_length source more len :
  (¬ 1 ≤ len ≤ 4 → isLegalUTF8 [] len = Some false
                   ∧ isLegalUTF8 source len = Some false)
  ∧ (len ≤ Z.of_nat (length source) →
     is_Some (isLegalUTF8 source len)
     ∧ isLegalUTF8 (source ++ more) len = isLegalUTF8 source len).
Proof.
  split.
  - intros Hlen. unfold isLegalUTF8.
    destruct (Z.eqb_spec len 4); [lia|].
    destruct (Z.eqb_spec len 3); [lia|].
    destruct (Z.eqb_spec len 2); [lia|].
    destruct (Z.eqb_spec len 1); [lia|]. done.
  - intros Hlen. split;
      [by apply isLegalUTF8_in_range | by apply isLegalUTF8_reads_prefix].
Qed.

(** X4: called on unsigned bytes with the length the first byte announces,
    and with that many bytes present, isLegalUTF8 accepts exactly the
    byte sequences of table 3-7 of the Unicode Standard, except that after
    0xED and after 0xF4 it does not check that the second byte is at least
    0x80. *)
Theorem isLegalUTF8_by_table b0 t :
  Forall is_uchar (b0 :: t) →
  inlineUTF8SequenceLength b0 ≤ Z.of_nat (length (b0 :: t)) →
  let len := inlineUTF8SequenceLength b0 in
  isLegalUTF8 (b0 :: t) len
  = Some (utf8_sequence true (take (Z.to_nat len) (b0 :: t))).
Proof.
  intros Hall Hlen len. subst len.
  pose proof Hall as Hb0. apply Forall_cons in Hb0 as [Hb0 _].
  assert (is_char b0) as Hc by (unfold is_char, is_uchar in *; lia).
  rewrite (sequence_length_table b0 Hc), (to_uchar_id b0 Hb0) in *.
  by apply announced_sequence.
Qed.

(** X5: isLegalUTF8String returns an answer for every string: the loop
    ends within as many turns as the string has bytes, no read falls
    outside the bytes between source and sourceEnd, and more fuel gives the
    same answer. *)
Theorem isLegalUTF8String_total s :
  (∃ b, isLegalUTF8String s = Some b)
  ∧ ∀ fuel, (length s ≤ fuel)%nat →
            isLegalUTF8String_loop fuel s = isLegalUTF8String s.
Proof.
  split; [| intros fuel; apply loop_enough].
  destruct (loop_total (length s) s) as [b Hb]; [done|]. by exists b.
Qed.

(** X6: isLegalUTF8String answers true exactly for the strings that are a
    run of byte sequences from table 3-7 of the Unicode Standard, with the
    second byte after 0xED and after 0xF4 allowed to be anything up to
    0x9F and 0x8F. *)
Theorem isLegalUTF8String_accepts_exactly s :
  Forall is_char s →
  (isLegalUTF8String s = Some true ↔ utf8_string true (to_uchar <$> s))
  ∧ (isLegalUTF8String s = Some false ↔ ¬ utf8_string true (to_uchar <$> s)).
Proof.
  intros Hchars.
  assert (isLegalUTF8String s = Some true
          ↔ utf8_string true (to_uchar <$> s)) as Hiff.
  { split.
    - by apply (accepted_then_string (length s)).
    - intros Hstr. by apply (string_then_accepted _ Hstr). }
  split; [done|].
  destruct (loop_total (length s) s) as [[|] Hb]; [done | |];
    fold (isLegalUTF8String s) in Hb; rewrite Hb.
  - split; [done|]. intros Hn. destruct Hn. by apply Hiff.
  - split; [|done]. intros _ Hstr. apply Hiff in Hstr. congruence.
Qed.

(** X7: every well-formed UTF-8 string, as table 3-7 of the Unicode
    Standard defines it, is accepted by isLegalUTF8String. *)
Theorem isLegalUTF8String_accepts_well_formed s :
  Forall is_char s → utf8_string false (to_uchar <$> s) →
  isLegalUTF8String s = Some true.
Proof.
  intros Hchars Hwf.
  by apply (string_then_accepted _ (utf8_string_weaken _ Hwf)).
Qed.

(** X8: the two bounds the check leaves out.  After the first byte 0xED,
    and after the first byte 0xF4, a second byte below 0x80 is accepted by
    isLegalUTF8String although table 3-7 of the Unicode Standard has no
    such sequence. *)
Theorem isLegalUTF8String_lax_second_byte b1 b2 b3 :
  0 ≤ b1 < 0x80 → continuation b2 = true → continuation b3 = true →
  isLegalUTF8String [0xED; b1; b2] = Some true
  ∧ isLegalUTF8String [0xF4; b1; b2; b3] = Some true
  ∧ utf8_sequence false [0xED; b1; b2] = false
  ∧ utf8_sequence false [0xF4; b1; b2; b3] = false.
Proof.
  intros Hb1 Hb2 Hb3.
  pose proof Hb2 as Hr2. pose proof Hb3 as Hr3.
  unfold continuation in Hr2, Hr3.
  rewrite andb_true_iff, !Z.leb_le in Hr2, Hr3.
  assert (∀ seq, Forall is_uchar seq → utf8_sequence true seq = true →
                 isLegalUTF8String seq = Some true) as Hone.
  { intros seq Hbytes Hseq.
    apply (string_then_accepted (seq ++ [])).
    - constructor; [done | constructor].
    - eapply Forall_impl; [exact Hbytes|].
      unfold is_uchar, is_char. intros; lia.
    - rewrite app_nil_r. symmetry. apply list_eq. intros i.
      rewrite list_lookup_fmap.
      destruct (seq !! i) as [b|] eqn:Hb; [|done]. cbn. f_equal.
      apply to_uchar_id. by eapply Forall_lookup_1. }
  split_and!.
  - apply Hone.
    + repeat first [apply Forall_nil_2 | apply Forall_cons_2];
        unfold is_uchar; lia.
    + unfold utf8_sequence. rewrite Hb2.
      destruct (Z.leb_spec 0 b1); [|lia].
      destruct (Z.leb_spec b1 0x9F); [|lia]. done.
  - apply Hone.
    + repeat first [apply Forall_nil_2 | apply Forall_cons_2];
        unfold is_uchar; lia.
    + unfold utf8_sequence. rewrite Hb2, Hb3.
      destruct (Z.leb_spec 0 b1); [|lia].
      destruct (Z.leb_spec b1 0x8F); [|lia]. done.
  - unfold utf8_sequence. cbn.
    destruct (Z.leb_spec 0x80 b1); [lia|]. done.
  - unfold utf8_sequence. cbn.
    destruct (Z.leb_spec 0x80 b1); [lia|]. done.
Qed.

(** X9: a string of ASCII characters only is legal, whatever its length;
    in particular the empty string is. *)
Theorem isLegalUTF8String_ascii s :
  Forall (λ c, 0 ≤ c < 0x80) s → isLegalUTF8String s = Some true.
Proof.
  intros Hascii.
  apply (string_then_accepted (to_uchar <$> s)); [| | done].
  - induction s as [|c t IH]; [constructor|].
    apply Forall_cons in Hascii as [Hc Ht].
    change (to_uchar <$> c :: t) with ([to_uchar c] ++ (to_uchar <$> t)).
    constructor; [| by apply IH].
    rewrite to_uchar_id by (unfold is_uchar; lia).
    unfold utf8_sequence.
    destruct (Z.leb_spec 0 c); [|lia].
    destruct (Z.leb_spec c 0x7F); [done|lia].
  - eapply Forall_impl; [exact Hascii|]. unfold is_char. intros; lia.
Qed.

(** X10: a legal string in front does not change the answer: for legal s1,
    isLegalUTF8String gives on s1 followed by s2 what it gives on s2. *)
Theorem isLegalUTF8String_app s1 s2 :
  isLegalUTF8String s1 = Some true →
  isLegalUTF8String (s1 ++ s2) = isLegalUTF8String s2.
Proof. by apply (legal_prefix (length s1)). Qed.

(** X11: a string that stops inside a multi-byte sequence is rejected:
    after a legal string, a first byte that announces more bytes than are
    left before sourceEnd makes isLegalUTF8String answer false, and
    isLegalUTF8 is not called for it. *)
Theorem isLegalUTF8String_truncated s1 c t :
  isLegalUTF8String s1 = Some true →
  Z.of_nat (length (c :: t)) < inlineUTF8SequenceLength c →
  isLegalUTF8String (s1 ++ c :: t) = Some false.
Proof.
  intros Hlegal Hshort.
  rewrite (legal_prefix (length s1)) by done.
  rewrite isLegalUTF8String_cons. cbn zeta.
  destruct (Z.gtb_spec (inlineUTF8SequenceLength c)
              (Z.of_nat (length (c :: t)))); [done | lia].
Qed.

(** X12: a legal string holds none of the bytes 0xC0, 0xC1 and 0xF5 to
    0xFF, at any position. *)
Theorem isLegalUTF8String_excluded_bytes s :
  Forall is_char s → isLegalUTF8String s = Some true →
  Forall (λ c, to_uchar c ≤ 0xF4 ∧ to_uchar c ≠ 0xC0 ∧ to_uchar c ≠ 0xC1) s.
Proof.
  intros Hchars Hlegal.
  apply (accepted_then_string (length s)) in Hlegal; [| done | done].
  assert (∀ l, utf8_string true l →
               Forall (λ b, 0 ≤ b ≤ 0xF4 ∧ b ≠ 0xC0 ∧ b ≠ 0xC1) l) as Hall.
  { induction 1 as [|seq rest Hseq _ IH]; [constructor|].
    apply Forall_app. split; [|done].
    by destruct (utf8_sequence_bools _ _ Hseq) as (_ & _ & _ & _ & Hbytes). }
  apply Hall in Hlegal. rewrite Forall_fmap in Hlegal.
  eapply Forall_impl; [exact Hlegal|]. cbn. intros; lia.
Qed.

(** *** The UTF-8 properties on concrete bytes *)

Ltac chars_in_range :=
  repeat first [apply Forall_nil_2 | apply Forall_cons_2];
  unfold is_char, is_uchar; simpl; lia.

(** 0xC3 read as a signed char is -61: two bytes. *)
Lemma inlineUTF8SequenceLength_by_ranges_witness :
  is_char (-61) ∧ to_uchar (-61) = 0xC3
  ∧ inlineUTF8SequenceLength (-61) = 2.
Proof.
  assert (is_char (-61)) as Hc by (unfold is_char; lia).
  split_and!; [exact Hc | reflexivity |].
  exact (proj1 (inlineUTF8SequenceLength_by_ranges (-61) Hc)).
Defined.

(** 0xE2 and -30 are the same byte: three bytes either way. *)
Lemma inlineUTF8SequenceLength_signedness_witness :
  0x80 ≤ 0xE2 < 0x100
  ∧ inlineUTF8SequenceLength (0xE2 - 0x100) = inlineUTF8SequenceLength 0xE2.
Proof.
  assert (0x80 ≤ 0xE2 < 0x100) as Hb by lia.
  split; [exact Hb|].
  exact (proj1 (inlineUTF8SequenceLength_signedness 0xE2 Hb)).
Defined.

(** The euro sign 0xE2 0x82 0xAC, with the length 3 its first byte
    announces, is in the table. *)
Lemma isLegalUTF8_by_table_witness :
  Forall is_uchar [0xE2; 0x82; 0xAC]
  ∧ inlineUTF8SequenceLength 0xE2 ≤ Z.of_nat (length [0xE2; 0x82; 0xAC])
  ∧ isLegalUTF8 [0xE2; 0x82; 0xAC] (inlineUTF8SequenceLength 0xE2)
    = Some (utf8_sequence true [0xE2; 0x82; 0xAC]).
Proof.
  assert (Forall is_uchar [0xE2; 0x82; 0xAC]) as Hbytes by chars_in_range.
  assert (inlineUTF8SequenceLength 0xE2
          ≤ Z.of_nat (length [0xE2; 0x82; 0xAC])) as Hlen
    by (vm_compute; discriminate).
  split_and!; [exact Hbytes | exact Hlen |].
  exact (isLegalUTF8_by_table 0xE2 [0x82; 0xAC] Hbytes Hlen).
Defined.

(** "A" and e-acute, with the bytes of the second as signed chars: legal,
    and a run of two sequences of the table. *)
Lemma isLegalUTF8String_accepts_exactly_witness :
  Forall is_char [0x41; -61; -87]
  ∧ isLegalUTF8String [0x41; -61; -87] = Some true
  ∧ utf8_string true (to_uchar <$> [0x41; -61; -87]).
Proof.
  assert (Forall is_char [0x41; -61; -87]) as Hchars by chars_in_range.
  assert (isLegalUTF8String [0x41; -61; -87] = Some true) as Hlegal
    by reflexivity.
  split_and!; [exact Hchars | exact Hlegal |].
  exact (proj1 (proj1 (isLegalUTF8String_accepts_exactly _ Hchars)) Hlegal).
Defined.

(** The euro sign is well formed, so it is accepted. *)
Lemma isLegalUTF8String_accepts_well_formed_witness :
  Forall is_char [0xE2; 0x82; 0xAC]
  ∧ utf8_string false (to_uchar <$> [0xE2; 0x82; 0xAC])
  ∧ isLegalUTF8String [0xE2; 0x82; 0xAC] = Some true.
Proof.
  assert (Forall is_char [0xE2; 0x82; 0xAC]) as Hchars by chars_in_range.
  assert (utf8_string false (to_uchar <$> [0xE2; 0x82; 0xAC])) as Hwf.
  { change (to_uchar <$> [0xE2; 0x82; 0xAC]) with ([0xE2; 0x82; 0xAC] ++ []).
    constructor; [reflexivity | constructor]. }
  split_and!; [exact Hchars | exact Hwf |].
  exact (isLegalUTF8String_accepts_well_formed _ Hchars Hwf).
Defined.

(** 0xED "A" 0x80 and 0xF4 "A" 0x80 0x80 are accepted. *)
Lemma isLegalUTF8String_lax_second_byte_witness :
  0 ≤ 0x41 < 0x80 ∧ continuation 0x80 = true
  ∧ isLegalUTF8String [0xED; 0x41; 0x80] = Some true
  ∧ isLegalUTF8String [0xF4; 0x41; 0x80; 0x80] = Some true
  ∧ utf8_sequence false [0xED; 0x41; 0x80] = false.
Proof.
  assert (0 ≤ 0x41 < 0x80) as Hb1 by lia.
  destruct (isLegalUTF8String_lax_second_byte 0x41 0x80 0x80 Hb1
              eq_refl eq_refl) as (H3 & H4 & Hno & _).
  split; [exact Hb1|].
  split_and!; [reflexivity | exact H3 | exact H4 | exact Hno].
Defined.

(** "user:pass" is legal. *)
Lemma isLegalUTF8String_ascii_witness :
  Forall (λ c, 0 ≤ c < 0x80)
         [0x75; 0x73; 0x65; 0x72; 0x3A; 0x70; 0x61; 0x73; 0x73]
  ∧ isLegalUTF8String [0x75; 0x73; 0x65; 0x72; 0x3A; 0x70; 0x61; 0x73; 0x73]
    = Some true.
Proof.
  assert (Forall (λ c, 0 ≤ c < 0x80)
            [0x75; 0x73; 0x65; 0x72; 0x3A; 0x70; 0x61; 0x73; 0x73]) as Hascii
    by (repeat first [apply Forall_nil_2 | apply Forall_cons_2]; lia).
  split; [exact Hascii|].
  exact (isLegalUTF8String_ascii _ Hascii).
Defined.

(** After the legal e-acute, the lone byte 0xFF decides. *)
Lemma isLegalUTF8String_app_witness :
  isLegalUTF8String [0xC3; 0xA9] = Some true
  ∧ isLegalUTF8String ([0xC3; 0xA9] ++ [0xFF]) = isLegalUTF8String [0xFF]
  ∧ isLegalUTF8String [0xFF] = Some false.
Proof.
  assert (isLegalUTF8String [0xC3; 0xA9] = Some true) as Hlegal by reflexivity.
  split_and!; [exact Hlegal | | reflexivity].
  exact (isLegalUTF8String_app [0xC3; 0xA9] [0xFF] Hlegal).
Defined.

(** "A" followed by the first two bytes of the euro sign. *)
Lemma isLegalUTF8String_truncated_witness :
  isLegalUTF8String [0x41] = Some true
  ∧ Z.of_nat (length [0xE2; 0x82]) < inlineUTF8SequenceLength 0xE2
  ∧ isLegalUTF8String ([0x41] ++ [0xE2; 0x82]) = Some false.
Proof.
  assert (isLegalUTF8String [0x41] = Some true) as Hlegal by reflexivity.
  assert (Z.of_nat (length [0xE2; 0x82]) < inlineUTF8SequenceLength 0xE2)
    as Hshort by reflexivity.
  split_and!; [exact Hlegal | exact Hshort |].
  exact (isLegalUTF8String_truncated [0x41] 0xE2 [0x82] Hlegal Hshort).
Defined.

(** The bytes of "A", e-acute and the euro sign stay clear of 0xC0, 0xC1
    and 0xF5..0xFF. *)
Lemma isLegalUTF8String_excluded_bytes_witness :
  Forall is_char [0x41; 0xC3; 0xA9; 0xE2; 0x82; 0xAC]
  ∧ isLegalUTF8String [0x41; 0xC3; 0xA9; 0xE2; 0x82; 0xAC] = Some true
  ∧ Forall (λ c, to_uchar c ≤ 0xF4 ∧ to_uchar c ≠ 0xC0 ∧ to_uchar c ≠ 0xC1)
           [0x41; 0xC3; 0xA9; 0xE2; 0x82; 0xAC].
Proof.
  assert (Forall is_char [0x41; 0xC3; 0xA9; 0xE2; 0x82; 0xAC]) as Hchars
    by chars_in_range.
  assert (isLegalUTF8String [0x41; 0xC3; 0xA9; 0xE2; 0x82; 0xAC] = Some true)
    as Hlegal by reflexivity.
  split_and!; [exact Hchars | exact Hlegal |].
  exact (isLegalUTF8String_excluded_bytes _ Hchars Hlegal).
Defined.

(** ** More on the swap-in functions *)

(** X13: when every test of storeSwapInStart passes and the client is
    still there after storeOpen, the call makes exactly one storeOpen call,
    for the client's entry, with storeSwapInFileNotify as file callback,
    storeSwapInFileClosed as close callback and the client as callback
    data; it stores the handle it got in sc->swapin_sio, whatever handle
    was there before, locks that handle once, and returns.  The store
    differs from the one storeOpen left only in sc->swapin_sio. *)
Theorem storeSwapInStart_opens_and_locks env w sc c x c' :
  clients w !! sc = Some c → entries w !! entry c = Some x →
  mem_status x = NOT_IN_MEMORY → validated env x → swapped_out x →
  0 ≤ swap_filen x → mem_obj x ≠ NULL →
  let opened := storeOpen_backend env (entry c) Fn_storeSwapInFileNotify
                                  Fn_storeSwapInFileClosed sc w in
  clients opened.2 !! sc = Some c' →
  let r := storeSwapInStart env sc w in
  r_out r = Returned ()
  ∧ List.filter is_storeOpen (r_trace r)
    = [EvStoreOpen (entry c) Fn_storeSwapInFileNotify
                   Fn_storeSwapInFileClosed sc opened.1]
  ∧ r_world r = with_clients <[sc := set_swapin_sio opened.1 c']> opened.2
  ∧ swapin_sio <$> clients (r_world r) !! sc = Some opened.1
  ∧ lock_balance opened.1 (r_trace r) = 1
  ∧ callbacks (r_trace r) = [].
Proof.
  intros Hc Hx Hm Hv Hs Hf Ho opened Hc' r. subst r opened.
  destruct (start_open env w sc c x Hc Hx Hm Hv Hs Hf Ho) as [_ Hrun].
  cbn zeta in Hrun. rewrite (Hrun c' Hc'). cbn.
  split_and!; try done.
  - by rewrite lookup_insert_eq.
  - by rewrite bool_decide_true.
Qed.

(** X14: when the entry passes the tests on mem_status, ENTRY_VALIDATED,
    swap_status and swap_filen but has no MemObject, storeSwapInStart stops
    at the assertion e->mem_obj != NULL: storeOpen is not called and the
    store is as it was. *)
Theorem storeSwapInStart_requires_mem_obj env w sc c x :
  clients w !! sc = Some c → entries w !! entry c = Some x →
  mem_status x = NOT_IN_MEMORY → validated env x → swapped_out x →
  0 ≤ swap_filen x → mem_obj x = NULL →
  let r := storeSwapInStart env sc w in
  r_out r = AssertionFailed "e->mem_obj != NULL"
  ∧ opens (r_trace r) = false ∧ callbacks (r_trace r) = []
  ∧ r_world r = w.
Proof.
  intros Hc Hx Hm Hv Hs Hf Ho r. subst r.
  by rewrite (start_no_mem_obj env w sc c x).
Qed.


(** X16: storeSwapInFileNotify settles after one call: a second
    notification with the same handle leaves the store as the first one
    left it, and a notification whose handle carries the locator the entry
    already records leaves the store as it was. *)
Theorem storeSwapInFileNotify_idempotent w sc c x sio s errflag errflag' :
  clients w !! sc = Some c → entries w !! entry c = Some x →
  sios w !! sio = Some s →
  let w1 := r_world (storeSwapInFileNotify sc errflag sio w) in
  r_world (storeSwapInFileNotify sc errflag' sio w1) = w1
  ∧ (sio_locator s = swap_locator x → w1 = w).
Proof.
  intros Hc Hx Hs w1. subst w1.
  rewrite (notify_run w sc c x sio s errflag Hc Hx Hs). cbn [r_world].
  split.
  - rewrite (notify_run _ sc c (relocated s x) sio s errflag');
      [| done | apply lookup_insert_eq | done].
    cbn [r_world]. apply world_eq; cbn; try done.
    by rewrite insert_insert_eq.
  - intros Hloc. unfold sio_locator, swap_locator in Hloc.
    injection Hloc as Hd Hf.
    apply world_eq; cbn; try done.
    apply insert_id. rewrite Hx. f_equal.
    destruct x; unfold relocated; cbn in *. by rewrite Hd, Hf.
Qed.

(** X17: after a notification, whether storeSwapInStart opens an entry
    that is validated, swapped out, not in memory and has a MemObject is
    decided by the swap_filen of the handle that was notified, not by the
    one the entry had: the locator is copied unchecked, and a negative one
    stops every later swap-in of the entry, for all clients that share
    it. *)
Theorem storeSwapInFileNotify_then_start env w sc c x sio s errflag sc' c' :
  clients w !! sc = Some c → entries w !! entry c = Some x →
  sios w !! sio = Some s →
  clients w !! sc' = Some c' → entry c' = entry c →
  mem_status x = NOT_IN_MEMORY → validated env x → swapped_out x →
  mem_obj x ≠ NULL →
  let w1 := r_world (storeSwapInFileNotify sc errflag sio w) in
  let r := storeSwapInStart env sc' w1 in
  (opens (r_trace r) = true ↔ 0 ≤ sio_swap_filen s)
  ∧ (sio_swap_filen s < 0 → r_world r = w1 ∧ r_out r = Returned ()).
Proof.
  intros Hc Hx Hs Hc' He Hm Hv Hso Ho w1 r. subst r w1.
  rewrite (notify_run w sc c x sio s errflag Hc Hx Hs). cbn [r_world].
  set (w1 := with_entries _ w).
  assert (clients w1 !! sc' = Some c') as Hc1 by done.
  assert (entries w1 !! entry c' = Some (relocated s x)) as Hx1
    by (rewrite He; apply lookup_insert_eq).
  destruct (Z.lt_ge_cases (sio_swap_filen s) 0) as [Hneg|Hpos].
  - rewrite (start_no_locator env w1 sc' c' (relocated s x)) by done.
    cbn. split; [|done]. split; [done | lia].
  - destruct (start_open env w1 sc' c' (relocated s x)) as [Hopen _];
      try done.
    cbn zeta in Hopen. split; [|lia]. by split.
Qed.

(** X18: a swap-in that storeSwapInStart refuses for an entry that is not
    in memory is written to the log at level 1 exactly when the entry is
    validated: a wrong swap_status or a negative swap_filen is reported,
    an entry that is not validated is passed over in silence. *)
Theorem storeSwapInStart_refusal_logged env w sc c x :
  clients w !! sc = Some c → entries w !! entry c = Some x →
  mem_status x = NOT_IN_MEMORY →
  ¬ (validated env x ∧ swapped_out x ∧ 0 ≤ swap_filen x) →
  let r := storeSwapInStart env sc w in
  r_out r = Returned ()
  ∧ (logged_at 1 (r_trace r) = true ↔ validated env x)
  ∧ (¬ validated env x → r_trace r = []).
Proof.
  intros Hc Hx Hm Hn r. subst r.
  destruct (decide (validated env x)) as [Hv|Hv]; last first.
  { rewrite (start_not_validated env w sc c x) by done. cbn.
    split; [done|]. split; [|done]. split; [done | by intros]. }
  destruct (decide (swapped_out x)) as [Hs|Hs].
  - assert (swap_filen x < 0) as Hf.
    { destruct (Z.lt_ge_cases (swap_filen x) 0); [done|].
      destruct Hn. by split_and!. }
    rewrite (start_no_locator env w sc c x) by done.
    cbn. split; [done|]. split; [|done]. by split.
  - rewrite (start_bad_swap_status env w sc c x) by done.
    cbn. split; [done|]. split; [|done]. by split.
Qed.

(** *** On the concrete store *)

Ltac entry_is_validated := unfold validated; vm_compute; discriminate.

(** Client 200 swaps in entry 100: the backend hands out handle 4196. *)
Lemma storeSwapInStart_opens_and_locks_witness :
  clients w0 !! 200 = Some c200 ∧ entries w0 !! entry c200 = Some e100
  ∧ r_out (storeSwapInStart env0 200 w0) = Returned ()
  ∧ List.filter is_storeOpen (r_trace (storeSwapInStart env0 200 w0))
    = [EvStoreOpen 100 Fn_storeSwapInFileNotify Fn_storeSwapInFileClosed
                   200 4196]
  ∧ swapin_sio <$> clients (r_world (storeSwapInStart env0 200 w0)) !! 200
    = Some 4196
  ∧ lock_balance 4196 (r_trace (storeSwapInStart env0 200 w0)) = 1.
Proof.
  assert (validated env0 e100) as Hv by entry_is_validated.
  assert (swapped_out e100) as Hs by (by right).
  assert (0 ≤ swap_filen e100) as Hf by (simpl; lia).
  assert (mem_obj e100 ≠ NULL) as Ho by discriminate.
  destruct (storeSwapInStart_opens_and_locks env0 w0 200 c200 e100 c200
              eq_refl eq_refl eq_refl Hv Hs Hf Ho eq_refl)
    as (Hout & Hopen & _ & Hsio & Hlock & _).
  split_and!; [reflexivity | reflexivity | exact Hout | exact Hopen
              | exact Hsio | exact Hlock].
Defined.

(** Entry 100 without its MemObject: the call stops at the second
    assertion. *)
Lemma storeSwapInStart_requires_mem_obj_witness :
  let x := mkStoreEntry NULL 1024 5 0 NOT_IN_MEMORY SWAPOUT_DONE in
  let w := with_entries <[100 := x]> w0 in
  clients w !! 200 = Some c200 ∧ entries w !! entry c200 = Some x
  ∧ r_out (storeSwapInStart env0 200 w)
    = AssertionFailed "e->mem_obj != NULL"
  ∧ r_world (storeSwapInStart env0 200 w) = w.
Proof.
  intros x w.
  assert (validated env0 x) as Hv by entry_is_validated.
  assert (swapped_out x) as Hs by (by right).
  assert (0 ≤ swap_filen x) as Hf by (simpl; lia).
  destruct (storeSwapInStart_requires_mem_obj env0 w 200 c200 x
              eq_refl eq_refl eq_refl Hv Hs Hf eq_refl)
    as (Hout & _ & _ & Hw).
  split_and!; [reflexivity | reflexivity | exact Hout | exact Hw].
Defined.


(** Client 200 is notified twice with handle 300; client 201 is notified
    with handle 301, which carries the 0/5 that entry 100 records. *)
Lemma storeSwapInFileNotify_idempotent_witness :
  clients w0 !! 200 = Some c200 ∧ entries w0 !! entry c200 = Some e100
  ∧ sios w0 !! 300 = Some s300
  ∧ r_world (storeSwapInFileNotify 200 0 300
               (r_world (storeSwapInFileNotify 200 0 300 w0)))
    = r_world (storeSwapInFileNotify 200 0 300 w0)
  ∧ sio_locator s301 = swap_locator e100
  ∧ r_world (storeSwapInFileNotify 201 0 301 w0) = w0.
Proof.
  destruct (storeSwapInFileNotify_idempotent w0 200 c200 e100 300 s300 0 0
              eq_refl eq_refl eq_refl) as [Htwice _].
  destruct (storeSwapInFileNotify_idempotent w0 201 c201 e100 301 s301 0 0
              eq_refl eq_refl eq_refl) as [_ Hsame].
  split_and!; [reflexivity | reflexivity | reflexivity | exact Htwice
              | reflexivity | exact (Hsame eq_refl)].
Defined.

(** Handle 302 carries swap_filen -1.  Client 200 is notified with it;
    client 201, on the same entry, can no longer swap in. *)
Lemma storeSwapInFileNotify_then_start_witness :
  let w := mkWorld (entries w0) (clients w0)
                   (<[302 := mkStoreIOState (-1) 0]> (sios w0))
                   (statCounter_swap_ins w0) in
  let w1 := r_world (storeSwapInFileNotify 200 0 302 w) in
  clients w !! 200 = Some c200 ∧ clients w !! 201 = Some c201
  ∧ entry c201 = entry c200
  ∧ opens (r_trace (storeSwapInStart env0 201 w)) = true
  ∧ opens (r_trace (storeSwapInStart env0 201 w1)) = false
  ∧ r_out (storeSwapInStart env0 201 w1) = Returned ().
Proof.
  intros w w1.
  assert (validated env0 e100) as Hv by entry_is_validated.
  assert (swapped_out e100) as Hs by (by right).
  assert (mem_obj e100 ≠ NULL) as Ho by discriminate.
  destruct (storeSwapInFileNotify_then_start env0 w 200 c200 e100 302
              (mkStoreIOState (-1) 0) 0 201 c201
              eq_refl eq_refl eq_refl eq_refl eq_refl eq_refl Hv Hs Ho)
    as [Hiff Hneg].
  destruct Hneg as [_ Hout]; [simpl; lia|].
  split_and!; [reflexivity | reflexivity | reflexivity | reflexivity | | exact Hout].
  destruct (opens (r_trace (storeSwapInStart env0 201 w1))) eqn:Hopens;
    [| reflexivity].
  apply Hiff in Hopens. simpl in Hopens. lia.
Defined.

(** Client 204 asks for entry 103, validated but never swapped out: the
    refusal is logged.  Client 202 asks for entry 101, not validated:
    nothing is logged. *)
Lemma storeSwapInStart_refusal_logged_witness :
  clients w0 !! 204 = Some c204 ∧ entries w0 !! entry c204 = Some e103
  ∧ logged_at 1 (r_trace (storeSwapInStart env0 204 w0)) = true
  ∧ clients w0 !! 202 = Some c202 ∧ entries w0 !! entry c202 = Some e101
  ∧ r_trace (storeSwapInStart env0 202 w0) = [].
Proof.
  assert (validated env0 e103) as Hv by entry_is_validated.
  assert (¬ validated env0 e101) as Hnv by (intros H; by apply H).
  destruct (storeSwapInStart_refusal_logged env0 w0 204 c204 e103
              eq_refl eq_refl eq_refl) as (_ & Hlog & _).
  { intros (_ & [Hs|Hs] & _); discriminate Hs. }
  destruct (storeSwapInStart_refusal_logged env0 w0 202 c202 e101
              eq_refl eq_refl eq_refl) as (_ & _ & Hquiet).
  { intros (Hv' & _). by apply Hnv. }
  split_and!; [reflexivity | reflexivity | exact (proj2 Hlog Hv)
              | reflexivity | reflexivity | exact (Hquiet Hnv)].
Defined.

(** ** Decoding the credentials *)

Lemma c_string_no_nul buffer : Forall (λ c, c ≠ 0) (c_string buffer).
Proof.
  induction buffer as [|c rest IH]; cbn; [constructor|].
  destruct (Z.eqb_spec c 0); [constructor | by constructor].
Qed.

Lemma c_string_id s : Forall (λ c, c ≠ 0) s → c_string s = s.
Proof.
  induction 1 as [|c rest Hc _ IH]; cbn; [done|].
  destruct (Z.eqb_spec c 0); [done | by rewrite IH].
Qed.

Lemma span_until_all test s :
  length (span_until test s) = length s ↔ Forall (λ c, test c = false) s.
Proof.
  induction s as [|c rest IH]; cbn; [by split; [constructor|]|].
  destruct (test c) eqn:Hc; cbn.
  - split; [lia|]. intros H. apply Forall_cons in H as [H _]. congruence.
  - rewrite Forall_cons. split.
    + intros H. split; [done|]. apply IH. lia.
    + intros [_ H]. apply IH in H. lia.
Qed.

Lemma has_cr_or_lf_false s :
  has_cr_or_lf s = false ↔ Forall (λ c, c ≠ 13 ∧ c ≠ 10) s.
Proof.
  unfold has_cr_or_lf. rewrite negb_false_iff, Nat.eqb_eq, span_until_all.
  apply Forall_iff. intros c. unfold is_cr_or_lf.
  rewrite orb_false_iff, !Z.eqb_neq. done.
Qed.

Lemma skip_while_passed test s rest :
  Forall (λ c, test c = true) s →
  skip_while test (s ++ rest) = skip_while test rest.
Proof. induction 1 as [|c s Hc _ IH]; cbn; [done|]. by rewrite Hc. Qed.

Lemma skip_while_stops test c rest :
  test c = false → skip_while test (c :: rest) = c :: rest.
Proof. intros H. cbn. by rewrite H. Qed.

Lemma span_until_app test s rest :
  Forall (λ c, test c = false) s →
  (rest = [] ∨ ∃ c t, rest = c :: t ∧ test c = true) →
  span_until test (s ++ rest) = s.
Proof.
  intros Hs Hrest. induction Hs as [|c s Hc _ IH]; cbn.
  - destruct Hrest as [->|(c & t & -> & Hc)]; cbn; [done | by rewrite Hc].
  - by rewrite Hc, IH.
Qed.

(** X19: decodeCleartext always comes back, and what it returns, if not
    NULL, is a C string without CR and without LF, whatever the base64
    decoder and latin1_to_utf8 produce; when the base64 decoder fails it
    returns NULL. *)
Theorem decodeCleartext_no_line_breaks ext httpAuthHeader :
  (∃ result, Config_decodeCleartext ext httpAuthHeader = Some result)
  ∧ (∀ cleartext,
       Config_decodeCleartext ext httpAuthHeader = Some (Some cleartext) →
       Forall (λ c, c ≠ 0 ∧ c ≠ 13 ∧ c ≠ 10) cleartext)
  ∧ (base64_decode ext
       (strtok_newline
          (skip_while (λ c, xisspace ext (to_uchar c))
             (skip_while (λ c, xisgraph ext (to_uchar c)) httpAuthHeader)))
     = None →
     Config_decodeCleartext ext httpAuthHeader = Some None).
Proof.
  unfold Config_decodeCleartext.
  destruct (base64_decode ext _) as [decoded|];
    [| split_and!; [by eexists | by intros | done]].
  destruct (loop_total (length decoded) decoded) as [legal Hlegal]; [done|].
  fold (isLegalUTF8String decoded) in Hlegal. rewrite Hlegal. cbn.
  set (cleartext := if negb legal then _ else _).
  assert (Forall (λ c, c ≠ 0) cleartext) as Hnul
    by (subst cleartext; destruct legal; apply c_string_no_nul).
  destruct (has_cr_or_lf cleartext) eqn:Hbreaks.
  - split_and!; [by eauto | done | done].
  - split_and!; [by eauto | | done].
    intros ? [= <-]. apply has_cr_or_lf_false in Hbreaks.
    rewrite Forall_forall in Hnul, Hbreaks. apply Forall_forall.
    intros c Hc. specialize (Hnul c Hc). specialize (Hbreaks c Hc). tauto.
Qed.

(** X20: a header made of any word of graphic characters, white space,
    the base64 text and, possibly, a newline with anything behind it, gives
    back the decoded text when that text is legal UTF-8 and holds no NUL,
    CR or LF.  The word is not compared with "Basic", and what follows the
    first newline is not looked at. *)
Theorem decodeCleartext_round_trip ext scheme gap payload tail text :
  Forall (λ c, xisgraph ext (to_uchar c) = true) scheme →
  gap ≠ [] →
  Forall (λ c, xisgraph ext (to_uchar c) = false
               ∧ xisspace ext (to_uchar c) = true) gap →
  payload ≠ [] →
  Forall (λ c, xisspace ext (to_uchar c) = false ∧ c ≠ 10) payload →
  (tail = [] ∨ ∃ t, tail = 10 :: t) →
  base64_decode ext payload = Some text →
  isLegalUTF8String text = Some true →
  Forall (λ c, c ≠ 0 ∧ c ≠ 13 ∧ c ≠ 10) text →
  Config_decodeCleartext ext (scheme ++ gap ++ payload ++ tail)
  = Some (Some text).
Proof.
  intros Hscheme Hgap0 Hgap Hpay0 Hpay Htail H64 Hlegal Htext.
  unfold Config_decodeCleartext.
  destruct gap as [|g gap]; [done|].
  destruct payload as [|p payload]; [done|].
  apply Forall_cons in Hgap as [[Hg1 Hg2] Hgap].
  pose proof Hpay as Hp. apply Forall_cons in Hp as [[Hp1 Hp2] _].
  rewrite (skip_while_passed (λ c, xisgraph ext (to_uchar c)) scheme)
    by done.
  change ((g :: gap) ++ (p :: payload) ++ tail)
    with (g :: (gap ++ (p :: payload) ++ tail)).
  rewrite (skip_while_stops (λ c, xisgraph ext (to_uchar c))) by done.
  change (g :: (gap ++ (p :: payload) ++ tail))
    with ((g :: gap) ++ (p :: payload) ++ tail).
  rewrite (skip_while_passed (λ c, xisspace ext (to_uchar c)) (g :: gap)).
  2:{ constructor; [done|]. eapply Forall_impl; [exact Hgap|].
      by intros c [_ ?]. }
  change ((p :: payload) ++ tail) with (p :: (payload ++ tail)).
  rewrite (skip_while_stops (λ c, xisspace ext (to_uchar c))) by done.
  assert (strtok_newline (p :: payload ++ tail) = p :: payload) as ->.
  { unfold strtok_newline.
    rewrite (skip_while_stops is_newline)
      by (unfold is_newline; by apply Z.eqb_neq).
    rewrite Nat.sub_diag. cbn [take app].
    change (p :: payload ++ tail) with ((p :: payload) ++ tail).
    apply span_until_app.
    - eapply Forall_impl; [exact Hpay|]. intros c [_ Hc].
      unfold is_newline. by apply Z.eqb_neq.
    - destruct Htail as [->|[t ->]]; [by left | right].
      by exists 10, t. }
  rewrite H64, Hlegal. cbn.
  rewrite c_string_id
    by (eapply Forall_impl; [exact Htext|]; by intros c [? _]).
  replace (has_cr_or_lf text) with false; [done|].
  symmetry. apply has_cr_or_lf_false.
  eapply Forall_impl; [exact Htext|]. by intros c [_ ?].
Qed.

(** X21: text that decodes to ASCII never goes through latin1_to_utf8:
    the result is the decoded text up to its first NUL, or NULL when that
    part holds a CR or an LF. *)
Theorem decodeCleartext_ascii ext httpAuthHeader decoded :
  base64_decode ext
    (strtok_newline
       (skip_while (λ c, xisspace ext (to_uchar c))
          (skip_while (λ c, xisgraph ext (to_uchar c)) httpAuthHeader)))
  = Some decoded →
  Forall (λ c, 0 ≤ c < 0x80) decoded →
  Config_decodeCleartext ext httpAuthHeader
  = Some (if has_cr_or_lf (c_string decoded) then None
          else Some (c_string decoded)).
Proof.
  intros H64 Hascii. unfold Config_decodeCleartext.
  rewrite H64, (string_then_accepted (to_uchar <$> decoded)); cbn.
  - by destruct (has_cr_or_lf (c_string decoded)).
  - clear H64. induction decoded as [|c t IH]; [constructor|].
    apply Forall_cons in Hascii as [Hc Ht].
    change (to_uchar <$> c :: t) with ([to_uchar c] ++ (to_uchar <$> t)).
    constructor; [| by apply IH].
    rewrite to_uchar_id by (unfold is_uchar; lia).
    unfold utf8_sequence.
    destruct (Z.leb_spec 0 c); [|lia].
    destruct (Z.leb_spec c 0x7F); [done|lia].
  - eapply Forall_impl; [exact Hascii|]. unfold is_char. intros; lia.
  - done.
Qed.

Lemma strchr_app_found u rest :
  strchr u 58 = None → strchr (u ++ 58 :: rest) 58 = Some (length u).
Proof.
  induction u as [|c u IH]; cbn; [done|].
  destruct (Z.eqb_spec c 58); [done|].
  destruct (strchr u 58) eqn:Hu; [done|]. intros _. by rewrite IH.
Qed.

(** X22: decode splits the cleartext at its first colon.  For a user name
    without a colon and a password that is not empty, "name:password"
    gives back that name, lowered by Tolower only when casesensitive is
    off, and that password, unchanged, with the colons it may hold and
    whatever casesensitive says, and no deny message. *)
Theorem decode_credentials_round_trip casesensitive Tolower name password :
  strchr name 58 = None → password ≠ [] →
  Config_decode_credentials casesensitive Tolower (name ++ 58 :: password)
  = mkCredentials (if casesensitive =? 0 then Tolower name else name)
                  (Some password) None.
Proof.
  intros Hname Hpw. unfold Config_decode_credentials.
  rewrite (strchr_app_found name password Hname).
  rewrite take_app_length.
  assert (drop (S (length name)) (name ++ 58 :: password) = password) as ->.
  { rewrite <- (Nat.add_1_r (length name)), <- drop_drop, drop_app_length.
    done. }
  by destruct password.
Qed.

(** X23: whatever the cleartext, decode never keeps an empty password,
    and it sets a deny message exactly when it keeps no password: without
    a colon the message says that no password was present, with nothing
    after the first colon it says that the password was empty. *)
Theorem decode_credentials_deny casesensitive Tolower cleartext :
  let user := Config_decode_credentials casesensitive Tolower cleartext in
  cr_passwd user ≠ Some []
  ∧ (cr_passwd user = None ↔ is_Some (cr_denyMessage user))
  ∧ (strchr cleartext 58 = None →
     cr_passwd user = None
     ∧ cr_denyMessage user
       = Some "no password was present in the HTTP [proxy-]authorization header. This is most likely a browser bug")
  ∧ (∀ name, strchr name 58 = None → cleartext = name ++ [58] →
     cr_passwd user = None
     ∧ cr_denyMessage user
       = Some "Request denied because you provided an empty password. Users MUST have a password.").
Proof.
  intros user. subst user. unfold Config_decode_credentials.
  split_and!.
  - destruct (strchr cleartext 58) as [i|]; [|done].
    by destruct (drop (S i) cleartext).
  - destruct (strchr cleartext 58) as [i|]; cbn.
    + destruct (drop (S i) cleartext); cbn; (split; [done|]);
        first [done | by intros [? ?]].
    + by split.
  - by intros ->.
  - intros name Hname ->. rewrite (strchr_app_found name [] Hname).
    assert (drop (S (length name)) (name ++ [58]) = []) as ->.
    { rewrite <- (Nat.add_1_r (length name)), <- drop_drop, drop_app_length.
      done. }
    done.
Qed.

(** *** On concrete headers *)

Ltac show_chars :=
  repeat match goal with
         | |- context [chars ?s] =>
             let l := eval vm_compute in (chars s) in change (chars s) with l
         end.

Ltac each_char :=
  show_chars;
  repeat first [apply Forall_nil_2 | apply Forall_cons_2];
  cbn beta;
  first [reflexivity | lia
        | split_and!; first [reflexivity | discriminate | lia]].

(** "Digest", two blanks, the base64 of "user:pass", a newline and an
    "x": the credentials are "user:pass". *)
Lemma decodeCleartext_round_trip_witness :
  Config_decodeCleartext Credentials.c_locale
    (chars "Digest" ++ chars "  " ++ chars "dXNlcjpwYXNz" ++ [10; 120])
  = Some (Some (chars "user:pass")).
Proof.
  apply (decodeCleartext_round_trip Credentials.c_locale
           (chars "Digest") (chars "  ") (chars "dXNlcjpwYXNz") [10; 120]
           (chars "user:pass")).
  - each_char.
  - discriminate.
  - each_char.
  - discriminate.
  - each_char.
  - right. by exists [120].
  - reflexivity.
  - reflexivity.
  - each_char.
Defined.

(** "Basic dXNlcjpwYXNz" decodes to ASCII. *)
Lemma decodeCleartext_ascii_witness :
  Forall (λ c, 0 ≤ c < 0x80) (chars "user:pass")
  ∧ Config_decodeCleartext Credentials.c_locale (chars "Basic dXNlcjpwYXNz")
    = Some (Some (chars "user:pass")).
Proof.
  assert (Forall (λ c, 0 ≤ c < 0x80) (chars "user:pass")) as Hascii
    by each_char.
  split; [exact Hascii|].
  exact (decodeCleartext_ascii Credentials.c_locale
           (chars "Basic dXNlcjpwYXNz") (chars "user:pass")
           eq_refl Hascii).
Defined.

(** "User:Pa:ss" with casesensitive off and a Tolower that maps "U" to
    "u": the name is lowered, the password is kept as it is. *)
Lemma decode_credentials_round_trip_witness :
  let Tolower := map (λ c, if c =? 85 then 117 else c) in
  strchr (chars "User") 58 = None ∧ chars "Pa:ss" ≠ []
  ∧ Config_decode_credentials 0 Tolower (chars "User" ++ 58 :: chars "Pa:ss")
    = mkCredentials (chars "user") (Some (chars "Pa:ss")) None.
Proof.
  intros Tolower.
  assert (chars "Pa:ss" ≠ []) as Hpw by discriminate.
  split_and!; [reflexivity | exact Hpw |].
  exact (decode_credentials_round_trip 0 Tolower (chars "User")
           (chars "Pa:ss") eq_refl Hpw).
Defined.

(** ** Life cycle of the Basic scheme *)

(** X24: whatever the state and whatever the base class does in its own
    done, after done the scheme is not active and not configured, there is
    no helper object and no program; helperShutdown was called once if
    there was a helper and not at all otherwise.  A second done runs the
    done of the base class again, and destroys the program again if that
    left one, but calls helperShutdown no more, and the scheme is again
    not active, not configured, without helper and without program. *)
Theorem Config_done_resets ext s :
  let s' := (Config_done ext s).1 in
  let s'' := (Config_done ext s').1 in
  Config_active s' = false ∧ Config_configured s' = false
  ∧ basicauthenticators s' = None
  ∧ authenticateProgram (config s') = []
  ∧ (Config_done ext s).2
    = match basicauthenticators s with
      | Some h => [CallHelperShutdown h]
      | None => []
      end
  ∧ (Config_done ext s').2 = []
  ∧ config s''
    = (if negb (bool_decide
                  (authenticateProgram (SchemeConfig_done ext (config s'))
                   = []))
       then with_program [] (SchemeConfig_done ext (config s'))
       else SchemeConfig_done ext (config s'))
  ∧ Config_active s'' = false ∧ Config_configured s'' = false
  ∧ basicauthenticators s'' = None
  ∧ authenticateProgram (config s'') = [].
Proof.
  assert (∀ c, authenticateProgram
                 (if negb (bool_decide (authenticateProgram c = []))
                  then with_program [] c else c) = []) as Hprogram.
  { intros c. case_bool_decide as Hp; cbn; done. }
  cbn zeta. unfold Config_done, Config_active, Config_configured. cbn.
  rewrite !Hprogram. by rewrite bool_decide_true.
Qed.

(** X25: init starts the scheme exactly when a program is set.  With a
    program, the scheme is active afterwards, helperOpenServers is called
    once, on a helper that has the program as command line and IPC_STREAM
    as ipc type; an existing helper object is used again and a new one,
    named "basicauthenticator", is made only when there is none.  Without
    a program init changes nothing and calls nothing.  A configured scheme
    has a program, so init makes it active. *)
Theorem Config_init_starts ext s :
  (authenticateProgram (config s) ≠ [] →
   ∃ h, (Config_init ext s).2 = [CallHelperOpenServers h]
        ∧ (Config_init ext s).1
          = mkBasicScheme 1 (Some (helperOpenServers ext h)) (config s)
        ∧ Config_active (Config_init ext s).1 = true
        ∧ cmdline h = authenticateProgram (config s)
        ∧ ipc_type h = IPC_STREAM ext
        ∧ id_name h = match basicauthenticators s with
                      | Some old => id_name old
                      | None => id_name (new_helper ext "basicauthenticator")
                      end)
  ∧ (authenticateProgram (config s) = [] → Config_init ext s = (s, []))
  ∧ (Config_configured s = true →
     Config_active (Config_init ext s).1 = true).
Proof.
  split_and!.
  - intros Hp. unfold Config_init. rewrite bool_decide_false by done. cbn.
    eexists. split_and!; try reflexivity. by destruct (basicauthenticators s).
  - intros Hp. unfold Config_init. by rewrite bool_decide_true.
  - unfold Config_configured, Config_init.
    case_bool_decide as Hp; cbn; done.
Qed.

(** X26: after done the scheme cannot be started again as it is: done has
    destroyed the program, so an init that follows changes nothing, opens
    no helper and leaves the scheme inactive. *)
Theorem Config_done_then_init ext s :
  let s' := (Config_done ext s).1 in
  Config_init ext s' = (s', []) ∧ Config_active (Config_init ext s').1 = false.
Proof.
  cbn zeta.
  assert (authenticateProgram (config (Config_done ext s).1) = [])
    as Hprogram.
  { unfold Config_done. cbn. case_bool_decide as Hp; cbn; done. }
  unfold Config_init. rewrite Hprogram, bool_decide_true by done. by cbn.
Qed.

(** X27: over any run of init, rotateHelpers and done, the flag behind
    active stays 0 or 1, and whenever the scheme is active there is a
    helper object and a program.  In particular this holds for every run
    from the state at start-up. *)
Theorem lifecycle_keeps_invariant ext calls s :
  lifecycle_invariant s → lifecycle_invariant (lifecycle_run ext s calls).
Proof.
  revert s. induction calls as [|call calls IH]; intros s Hinv; [done|].
  cbn. apply IH. clear IH. destruct Hinv as [Hflag Hactive].
  destruct call; cbn.
  - unfold Config_init. case_bool_decide as Hp; cbn; [by split|].
    split; [by right|]. intros _. split; [cbn; eauto | exact Hp].
  - unfold Config_rotateHelpers.
    destruct (basicauthenticators s) as [h|] eqn:Hh; cbn.
    + split; [done|]. intros H1. split; [cbn; eauto|]. by apply Hactive.
    + split; [done|]. intros H1. rewrite Hh. by apply Hactive.
  - unfold Config_done. cbn. split; [by left | done].
Qed.

(** *** On a concrete configuration *)

(** A scheme with the program "/usr/lib/squid/basic_ncsa_auth
    /etc/squid/passwd" and five children is started. *)
Lemma lifecycle_keeps_invariant_witness :
  let ext := mkHelperSubsystem (λ c, c) (λ name, mkHelper name [] (mkChildConfig 0) 0)
                               (λ _ limits, limits) (λ h, h) (λ h, h) 1 in
  let c := mkConfig ["/usr/lib/squid/basic_ncsa_auth"; "/etc/squid/passwd"]
                    (mkChildConfig 5) "Squid proxy-caching web server"
                    7200 0 in
  lifecycle_invariant (at_startup c)
  ∧ lifecycle_invariant
      (lifecycle_run ext (at_startup c) [DoInit; DoRotateHelpers; DoDone; DoInit])
  ∧ Config_active (lifecycle_run ext (at_startup c) [DoInit; DoRotateHelpers])
    = true
  ∧ Config_active
      (lifecycle_run ext (at_startup c) [DoInit; DoRotateHelpers; DoDone; DoInit])
    = false.
Proof.
  intros ext c.
  assert (lifecycle_invariant (at_startup c)) as Hstart.
  { split; [by left | discriminate]. }
  split_and!; [exact Hstart | | reflexivity | reflexivity].
  exact (lifecycle_keeps_invariant ext
           [DoInit; DoRotateHelpers; DoDone; DoInit] (at_startup c) Hstart).
Defined.
